(** * PUBG-Lobby: generation pipeline and album compositor

    A shallow embedding of the control logic of the application, and the
    properties proved of it.

    The program:
    - [JsString]: the JavaScript string operations the code relies on
      ([toLowerCase], [trim], [includes]) and the pieces of the two
      regular expressions of [services/geminiService.ts], each written
      as the matcher it denotes;
    - [Js]: thrown values and completions;
    - [GeminiService]: [withRetry], [processGeminiResponse],
      [extractCharacter], [generateCharacterImage] and [detectGender],
      in a small monad that threads the log of remote calls, of back-off
      delays and of random draws, and carries thrown values;
    - [AlbumUtils]: [createAlbumPage], as the list of canvas operations
      it issues;
    - [App]: the worker pool of [handleGenerateClick], as a step relation
      over the turns of the event loop, and [handleRegenerateCharacter];
    - [Prompt]: [generatePrompt].

    Then the notions the properties are stated with ([Spec]), sample
    inputs ([Sample], [SampleApp]), and the proofs.

    Conventions.  A JavaScript string is modelled by the byte string of
    its UTF-8 encoding.  JavaScript numbers that are not integers
    (delays, canvas coordinates) are modelled by exact rationals [Q]:
    the rounding of IEEE doubles is not represented.  The remote
    endpoint, the image decoder and [Math.random] are oracles, given as
    functions.  [console.log], [console.warn] and [console.error] have
    no effect on control flow and are left out. *)

From Stdlib Require Import QArith Qround Lqa Ascii.
From stdpp Require Import gmap strings list.

(* ================================================================== *)
(** * JavaScript strings *)
(* ================================================================== *)

Module JsString.

(** [String.prototype.toLowerCase], on the ASCII letters.  The program
    lower-cases a text only to search it for an ASCII word ([male],
    [female], [internal]); the lower-casing of the other code points
    neither makes nor breaks an occurrence of these words. *)
Definition isUpper (c : ascii) : bool :=
  let n := nat_of_ascii c in (65 <=? n) && (n <=? 90).

Definition lowerChar (c : ascii) : ascii :=
  if isUpper c then ascii_of_nat (nat_of_ascii c + 32) else c.

Fixpoint toLowerCase (s : string) : string :=
  match s with
  | "" => ""
  | String c s' => String (lowerChar c) (toLowerCase s')
  end.

(** The white space [String.prototype.trim] removes, its ASCII part:
    tab, line feed, vertical tab, form feed, carriage return, space.
    The program trims a text only before it searches it for a word
    without white space. *)
Definition isSpace (c : ascii) : bool :=
  let n := nat_of_ascii c in ((9 <=? n) && (n <=? 13)) || (n =? 32).

Fixpoint trimStart (s : string) : string :=
  match s with
  | "" => ""
  | String c s' => if isSpace c then trimStart s' else s
  end.

Fixpoint trimEnd (s : string) : string :=
  match s with
  | "" => ""
  | String c s' =>
      match trimEnd s' with
      | "" => if isSpace c then "" else String c ""
      | t => String c t
      end
  end.

Definition trim (s : string) : string := trimEnd (trimStart s).

(** [s.startsWith(p)] *)
Fixpoint startsWith (s p : string) {struct p} : bool :=
  match p with
  | "" => true
  | String a p' =>
      match s with
      | "" => false
      | String b s' => Ascii.eqb a b && startsWith s' p'
      end
  end.

(** [s.includes(needle)] *)
Fixpoint includes (s needle : string) : bool :=
  startsWith s needle ||
  match s with
  | "" => false
  | String _ s' => includes s' needle
  end.

(** [s.endsWith(p)] *)
Fixpoint endsWith (s p : string) : bool :=
  String.eqb s p ||
  match s with
  | "" => false
  | String _ s' => endsWith s' p
  end.

(** The rest of [s] after the literal [p], when [s] starts with [p]. *)
Fixpoint stripPrefix (p s : string) {struct p} : option string :=
  match p with
  | "" => Some s
  | String a p' =>
      match s with
      | "" => None
      | String b s' => if Ascii.eqb a b then stripPrefix p' s' else None
      end
  end.

(** The class [\w] of a regular expression without the [u] and [i]
    flags: [A-Za-z0-9_]. *)
Definition isWordChar (c : ascii) : bool :=
  let n := nat_of_ascii c in
  ((48 <=? n) && (n <=? 57)) || ((65 <=? n) && (n <=? 90)) ||
  ((97 <=? n) && (n <=? 122)) || (n =? 95).

Fixpoint allWordChars (s : string) : bool :=
  match s with
  | "" => true
  | String c s' => isWordChar c && allWordChars s'
  end.

(** A greedy run of [\w]: the longest prefix of word characters and the
    rest. *)
Fixpoint spanWord (s : string) : string * string :=
  match s with
  | "" => ("", "")
  | String c s' =>
      if isWordChar c
      then let '(w, r) := spanWord s' in (String c w, r)
      else ("", s)
  end.

(** The line terminators that [.] does not match: LF, CR, and U+2028 and
    U+2029, whose UTF-8 encodings are E2 80 A8 and E2 80 A9. *)
Definition LS : string := String "226" (String "128" (String "168" "")).
Definition PS : string := String "226" (String "128" (String "169" "")).

Definition lineTerminatorAt (s : string) : bool :=
  startsWith s (String "010" "") || startsWith s (String "013" "") ||
  startsWith s LS || startsWith s PS.

(** A run of [.] up to the end of the input: the rest of the input,
    which must hold no line terminator. *)
Fixpoint noLineTerminator (s : string) : bool :=
  negb (lineTerminatorAt s) &&
  match s with
  | "" => true
  | String _ s' => noLineTerminator s'
  end.

Definition quote : ascii := "034".

(** A lazy run of [.] closed by a double quote, at the start of [s]: the
    characters before the first double quote, none of which may be a line
    terminator. *)
Fixpoint lazyQuoted (s : string) : option string :=
  match s with
  | "" => None
  | String c s' =>
      if Ascii.eqb c quote then Some ""
      else if lineTerminatorAt s then None
      else match lazyQuoted s' with
           | Some t => Some (String c t)
           | None => None
           end
  end.

(** Number of double quotes of a string. *)
Fixpoint countQuotes (s : string) : nat :=
  match s with
  | "" => 0
  | String c s' => (if Ascii.eqb c quote then 1 else 0) + countQuotes s'
  end.

(** The part of a string before its first double quote. *)
Fixpoint beforeQuote (s : string) : string :=
  match s with
  | "" => ""
  | String c s' => if Ascii.eqb c quote then "" else String c (beforeQuote s')
  end.

End JsString.

(* ================================================================== *)
(** * Thrown values and completions *)
(* ================================================================== *)

Module Js.

(** A value that was thrown, or with which a promise was rejected.  The
    fields are what the program reads of it. *)
Record JsError := mkJsError {
  isErrorInstance : bool;      (* error instanceof Error *)
  err_message : string;        (* error.message, empty when absent *)
  err_status : option Z;       (* error.status *)
  err_inner_code : option Z;   (* error.error.code *)
  err_inner_message : string;  (* error.error.message, empty when absent *)
  err_json : string;           (* JSON.stringify(error) *)
  err_string : string          (* String(error) *)
}.

(** [new Error(msg)] *)
Definition newError (msg : string) : JsError :=
  {| isErrorInstance := true; err_message := msg; err_status := None;
     err_inner_code := None; err_inner_message := "";
     err_json := "{}"; err_string := "Error: " +:+ msg |}.

(** The [TypeError] of a method call on [undefined]. *)
Definition typeError (msg : string) : JsError :=
  {| isErrorInstance := true; err_message := msg; err_status := None;
     err_inner_code := None; err_inner_message := "";
     err_json := "{}"; err_string := "TypeError: " +:+ msg |}.

(** How an evaluation ends: with a value, or by throwing. *)
Inductive Completion (A : Type) :=
| Return (a : A)
| Throw (e : JsError).
Arguments Return {A} a.
Arguments Throw {A} e.

End Js.

(* ================================================================== *)
(** * services/geminiService.ts *)
(* ================================================================== *)

Module GeminiService.
Import JsString Js.

(** ** Values exchanged with the remote model *)

Record InlineData := mkInlineData { mimeType : string; data : string }.

Inductive Modality := IMAGE | TEXT.

(** The argument of [ai.models.generateContent]. *)
Record Request := mkRequest {
  model : string;
  imagePart : InlineData;
  textPart : string;
  responseModalities : list Modality
}.

Record Part := mkPart { inlineData : option InlineData }.

(** A [GenerateContentResponse]: the parts of its first candidate (none
    when the candidate or its content is absent) and its [text]
    accessor. *)
Record GenerateContentResponse := mkResponse {
  parts : list Part;
  text : option string
}.

Inductive Gender := Male | Female | Unknown.

(** ** The effects: remote calls, timers, random numbers *)

(** What the program has done to the outside so far: the requests sent,
    the delays waited for with [setTimeout], and how many numbers were
    drawn from [Math.random]. *)
Record World := mkWorld {
  calls : list Request;
  sleeps : list Q;
  draws : nat
}.

Definition M (A : Type) : Type := World → Completion A * World.

Definition ret {A} (a : A) : M A := λ w, (Return a, w).
Definition throw {A} (e : JsError) : M A := λ w, (Throw e, w).

Definition bind {A B} (c : M A) (k : A → M B) : M B :=
  λ w, match c w with
       | (Return a, w') => k a w'
       | (Throw e, w') => (Throw e, w')
       end.

(** [try { body } catch (error) { handler }] *)
Definition tryCatch {A} (body : M A) (handler : JsError → M A) : M A :=
  λ w, match body w with
       | (Return a, w') => (Return a, w')
       | (Throw e, w') => handler e w'
       end.

Notation "'await' x ← c ; k" := (bind c (λ x, k))
  (at level 10, x name, c at level 100, k at level 200, only parsing).

Section Effects.

(** The remote endpoint: how the [i]-th request of a run is answered.
    The generator of [Math.random]: its [i]-th number. *)
Variable remote : nat → Request → Completion GenerateContentResponse.
Variable random : nat → Q.

(** [ai.models.generateContent(request)] *)
Definition generateContent (request : Request) : M GenerateContentResponse :=
  λ w, (remote (length (calls w)) request,
        {| calls := calls w ++ [request]; sleeps := sleeps w;
           draws := draws w |}).

(** [Math.random()] *)
Definition mathRandom : M Q :=
  λ w, (Return (random (draws w)),
        {| calls := calls w; sleeps := sleeps w; draws := S (draws w) |}).

(** [await new Promise(resolve => setTimeout(resolve, delay))] *)
Definition sleep (delay : Q) : M unit :=
  λ w, (Return tt,
        {| calls := calls w; sleeps := sleeps w ++ [delay];
           draws := draws w |}).

(** ** Helper functions *)

Definition dq : string := String quote "".

Definition getFallbackPrompt (character : string) : string :=
  "Create a photorealistic image of the person in this photo wearing the PUBG outfit "
  +:+ dq +:+ character +:+ dq +:+
  ". CRITICAL: The character's face must be clearly visible and UNCOVERED by any helmets or masks. Their face must keep the original facial features from the photo. The image should show them in a dynamic action pose within a battle royale setting. Ensure the final image is a clear photograph that looks authentic.".

(** The literal part of the expression of [extractCharacter], up to and
    including the opening double quote. *)
Definition outfitMarker : string :=
  "wearing the iconic PUBG outfit: " +:+ dq.

(** [prompt.match(...)]: the leftmost position at which the marker is
    followed by a lazy run closed by a double quote; [match[1]] is that
    run. *)
Fixpoint extractCharacter (prompt : string) : option string :=
  match stripPrefix outfitMarker prompt ≫= lazyQuoted with
  | Some character => Some character
  | None =>
      match prompt with
      | "" => None
      | String _ rest => extractCharacter rest
      end
  end.

Definition hasInlineData (part : Part) : bool :=
  match inlineData part with Some _ => true | None => false end.

Definition noImageMessage : string :=
  "The AI model responded with text instead of an image".

Definition processGeminiResponse (response : GenerateContentResponse)
  : M string :=
  match find hasInlineData (parts response) ≫= inlineData with
  | Some d => ret ("data:" +:+ mimeType d +:+ ";base64," +:+ data d)
  | None =>
      let textResponse := text response in
      throw (newError
        (noImageMessage +:+ ": " +:+ dq +:+
         match textResponse with
         | Some (String c t) => String c t
         | _ => "No text response received."
         end +:+ dq))
  end.

(** ** The retry wrapper *)

Definition maxRetries : nat := 3.
Definition initialDelay : Q := 1000.

(** [error?.error?.code || error?.status] *)
Definition statusOf (error : JsError) : option Z :=
  match err_inner_code error with
  | Some c => if (c =? 0)%Z then err_status error else Some c
  | None => err_status error
  end.

(** [error?.error?.message || error?.message || ''] *)
Definition messageOf (error : JsError) : string :=
  match err_inner_message error with
  | "" => err_message error
  | m => m
  end.

(** [[500, 503].includes(status) ||
     message.toLowerCase().includes('internal')] *)
Definition isRetriable (error : JsError) : bool :=
  match statusOf error with
  | Some s => (s =? 500)%Z || (s =? 503)%Z
  | None => false
  end || includes (toLowerCase (messageOf error)) "internal".

(** [initialDelay * Math.pow(2, attempt - 1) + Math.random() * 1000],
    with [r] the number drawn. *)
Definition backoffDelay (attempt : nat) (r : Q) : Q :=
  initialDelay * 2 ^ Z.of_nat (attempt - 1) + r * 1000.

(** The value the [catch] block of [withRetry] throws when it gives up. *)
Definition rethrow (error : JsError) : JsError :=
  if isErrorInstance error then error
  else newError ("Gemini API call failed: " +:+
                 match messageOf error with
                 | "" => err_json error
                 | m => m
                 end).

(** The loop [for (attempt = 1; attempt <= maxRetries; attempt++)], from
    the iteration [attempt] on; [remaining] counts the iterations that
    are left, [maxRetries + 1 - attempt]. *)
Fixpoint withRetryFrom {T} (remaining attempt : nat) (apiCall : M T) : M T :=
  match remaining with
  | 0 => throw (newError "Gemini API call failed after all retries.")
  | S remaining' =>
      tryCatch apiCall (λ error,
        if isRetriable error && (attempt <? maxRetries) then
          await r ← mathRandom;
          await _ ← sleep (backoffDelay attempt r);
          withRetryFrom remaining' (S attempt) apiCall
        else throw (rethrow error))
  end.

Definition withRetry {T} (apiCall : M T) : M T :=
  withRetryFrom maxRetries 1 apiCall.

(** ** Image generation *)

(** The request both attempts of [generateCharacterImage] send, for the
    text [text]. *)
Definition imageRequest (mimeType base64Data text : string) : Request :=
  {| model := "gemini-2.5-flash-image-preview";
     imagePart := mkInlineData mimeType base64Data;
     textPart := text;
     responseModalities := [IMAGE; TEXT] |}.

(** [imageDataUrl.match(...)] with the expression of a data URL: the
    literal [data:], the group [image/] and a non-empty greedy run of
    word characters, the literal [;base64,], and a group that runs to the
    end of the input.  The run of word characters cannot give back
    characters, since the literal after it starts with no word
    character. *)
Definition matchDataUrl (imageDataUrl : string) : option (string * string) :=
  rest ← stripPrefix "data:image/" imageDataUrl;
  let '(word, rest) := spanWord rest in
  match word with
  | "" => None
  | _ =>
      base64Data ← stripPrefix ";base64," rest;
      if noLineTerminator base64Data
      then Some ("image/" +:+ word, base64Data)
      else None
  end.

Definition generateCharacterImage (imageDataUrl prompt : string) : M string :=
  match matchDataUrl imageDataUrl with
  | None =>
      throw (newError
        "Invalid image data URL format. Expected 'data:image/...;base64,...'")
  | Some (mimeType, base64Data) =>
      (* First attempt with the original prompt *)
      tryCatch
        (await response ←
           withRetry (generateContent (imageRequest mimeType base64Data prompt));
         processGeminiResponse response)
        (λ error,
          let errorMessage :=
            if isErrorInstance error then err_message error
            else err_json error in
          let isNoImageError := includes errorMessage noImageMessage in
          if isNoImageError then
            match extractCharacter prompt with
            | None | Some "" => throw error
            | Some character =>
                (* Second attempt with the fallback prompt *)
                tryCatch
                  (let fallbackPrompt := getFallbackPrompt character in
                   await fallbackResponse ←
                     withRetry (generateContent
                       (imageRequest mimeType base64Data fallbackPrompt));
                   processGeminiResponse fallbackResponse)
                  (λ fallbackError,
                    let finalErrorMessage :=
                      if isErrorInstance fallbackError
                      then err_message fallbackError
                      else err_string fallbackError in
                    throw (newError
                      ("The AI model failed with both original and fallback prompts. Last error: "
                       +:+ finalErrorMessage)))
            end
          else
            throw (newError
              ("The AI model failed to generate an image. Details: "
               +:+ errorMessage)))
  end.

(** ** Gender detection *)

Definition genderRequest (mimeType base64Data : string) : Request :=
  {| model := "gemini-2.5-flash";
     imagePart := mkInlineData mimeType base64Data;
     textPart := "Analyze the person in this image and determine their most likely gender. Respond with only one word: 'Male', 'Female', or 'Unknown'.";
     responseModalities := [] |}.

Definition detectGender (imageDataUrl : string) : M Gender :=
  match matchDataUrl imageDataUrl with
  | None =>
      throw (newError "Invalid image data URL format for gender detection.")
  | Some (mimeType, base64Data) =>
      tryCatch
        (await response ←
           withRetry (generateContent (genderRequest mimeType base64Data));
         match text response with
         | None =>
             throw (typeError
               "Cannot read properties of undefined (reading 'trim')")
         | Some responseText =>
             let resultText := toLowerCase (trim responseText) in
             if includes resultText "male" then ret Male
             else if includes resultText "female" then ret Female
             else ret Unknown
         end)
        (λ error, ret Unknown)
  end.

End Effects.

End GeminiService.

(* ================================================================== *)
(** * lib/albumUtils.ts *)
(* ================================================================== *)

Module AlbumUtils.
Import Js.
Local Open Scope Q_scope.

(** [a > b] on numbers *)
Definition gtb (a b : Q) : bool := negb (Qle_bool a b).

(** A decoded image, as far as the compositor reads it. *)
Record HTMLImageElement := mkImage { naturalWidth : Z; naturalHeight : Z }.

(** The calls on the 2D context and the assignments to its properties,
    as the page is drawn. *)
Inductive CanvasOp :=
| SetFillStyle (style : string)
| SetStrokeStyle (style : string)
| SetLineWidth (w : Q)
| SetTextAlign (align : string)
| SetTextBaseline (baseline : string)
| SetFont (font : string)
| SetShadow (color : string) (blur offsetX offsetY : Q)
| SetShadowColor (color : string)
| FillRect (x y w h : Q)
| StrokeRect (x y w h : Q)
| FillText (text : string) (x y : Q)
| DrawImage (img : HTMLImageElement) (x y w h : Q)
| Save
| Restore
| Translate (x y : Q)
| Rotate (angle : Q).

(** The canvas when [toDataURL] is called, and the arguments of that
    call. *)
Record AlbumPage := mkAlbumPage {
  width : Z;
  height : Z;
  ops : list CanvasOp;
  encoding : string;
  quality : Q
}.

Definition canvasWidth : Z := 2480.
Definition canvasHeight : Z := 3508.

(** [const grid = { cols: 2, rows: 3, padding: 100 }] *)
Definition cols : nat := 2.
Definition rows : nat := 3.
Definition padding : Q := 100.

Definition contentTopMargin : Q := 300.
Definition contentHeight : Q := inject_Z canvasHeight - contentTopMargin.
Definition cellWidth : Q :=
  (inject_Z canvasWidth - padding * (inject_Z (Z.of_nat cols) + 1))
  / inject_Z (Z.of_nat cols).
Definition cellHeight : Q :=
  (contentHeight - padding * (inject_Z (Z.of_nat rows) + 1))
  / inject_Z (Z.of_nat rows).

Definition cardAspectRatio : Q := 5 # 4.
Definition maxCardWidth : Q := cellWidth * (9 # 10).
Definition maxCardHeight : Q := cellHeight * (9 # 10).

(** [cardWidth] and [cardHeight] after the adjustment to the cell. *)
Definition cardSize : Q * Q :=
  let cardWidth := maxCardWidth in
  let cardHeight := cardWidth * cardAspectRatio in
  if gtb cardHeight maxCardHeight
  then (maxCardHeight / cardAspectRatio, maxCardHeight)
  else (cardWidth, cardHeight).

Definition cardWidth : Q := fst cardSize.
Definition cardHeight : Q := snd cardSize.

Definition imageContainerWidth : Q := cardWidth * (9 # 10).
Definition imageContainerHeight : Q := imageContainerWidth * (11 # 10).

(** The top-left corner of the card of the cell in row [row] and column
    [col]: the [x] and [y] of the drawing loop. *)
Definition cardX (col : nat) : Q :=
  padding * (inject_Z (Z.of_nat col) + 1) + cellWidth * inject_Z (Z.of_nat col)
  + (cellWidth - cardWidth) / 2.
Definition cardY (row : nat) : Q :=
  contentTopMargin + padding * (inject_Z (Z.of_nat row) + 1)
  + cellHeight * inject_Z (Z.of_nat row) + (cellHeight - cardHeight) / 2.

(** The background and the title. *)
Definition drawHeader : list CanvasOp :=
  [ SetFillStyle "#111111";
    FillRect 0 0 (inject_Z canvasWidth) (inject_Z canvasHeight);
    SetFillStyle "#F59E0B";
    SetTextAlign "center";
    SetFont "140px 'Teko', sans-serif";
    FillText "PUBG LOBBY" (inject_Z canvasWidth / 2) 160;
    SetFont "50px 'Roboto', sans-serif";
    SetFillStyle "#AAA";
    FillText "Generated on Google AI Studio" (inject_Z canvasWidth / 2) 230 ].

(** The body of the drawing loop, for the card of grid index [index];
    [r] is the number [Math.random()] returns.  The quotient
    [naturalWidth / naturalHeight] is that of the rationals, so the model
    follows the code for images of positive height only. *)
Definition drawCard (index : nat) (character : string)
    (img : HTMLImageElement) (r : Q) : list CanvasOp :=
  let row := (index / cols)%nat in
  let col := (index mod cols)%nat in
  let x := cardX col in
  let y := cardY row in
  let rotation := (r - (1 # 2)) * (8 # 100) in
  let aspectRatio := inject_Z (naturalWidth img) / inject_Z (naturalHeight img) in
  let '(drawWidth, drawHeight) :=
    let drawWidth := imageContainerWidth in
    let drawHeight := drawWidth / aspectRatio in
    if gtb drawHeight imageContainerHeight
    then (imageContainerHeight * aspectRatio, imageContainerHeight)
    else (drawWidth, drawHeight) in
  let imageAreaTopMargin := (cardWidth - imageContainerWidth) / (25 # 10) in
  let imageContainerY := - cardHeight / 2 + imageAreaTopMargin in
  let imgX := - drawWidth / 2 in
  let imgY := imageContainerY + (imageContainerHeight - drawHeight) / 2 in
  let captionAreaTop := imageContainerY + imageContainerHeight in
  let captionAreaBottom := cardHeight / 2 in
  let captionY := captionAreaTop + (captionAreaBottom - captionAreaTop) / 2 in
  [ Save;
    Translate (x + cardWidth / 2) (y + cardHeight / 2);
    Rotate rotation;
    SetShadow "rgba(0, 0, 0, 0.7)" 50 15 20;
    SetFillStyle "#222";
    FillRect (- cardWidth / 2) (- cardHeight / 2) cardWidth cardHeight;
    SetStrokeStyle "#F59E0B";
    SetLineWidth 8;
    StrokeRect (- cardWidth / 2) (- cardHeight / 2) cardWidth cardHeight;
    SetShadowColor "transparent";
    DrawImage img imgX imgY drawWidth drawHeight;
    SetFillStyle "#F0F0F0";
    SetFont "80px 'Teko', sans-serif";
    SetTextAlign "center";
    SetTextBaseline "middle";
    FillText character 0 captionY;
    Restore ].

Section Compositor.

(** Whether [canvas.getContext('2d')] gives a context; what the browser
    decodes a URL to ([None]: the image fires [onerror]); the generator
    of [Math.random]. *)
Variable contextAvailable : bool.
Variable decode : string → option HTMLImageElement.
Variable random : nat → Q.

(** [loadImage(src)] *)
Definition loadImage (src : string) : Completion HTMLImageElement :=
  match decode src with
  | Some img => Return img
  | None =>
      Throw (newError ("Failed to load image: " +:+ String.substring 0 50 src
                       +:+ "..."))
  end.

(** [Promise.all] over the loads.  When several loads fail, the model
    reports the failure of the first in the list; in the browser it is
    the first to fail in time. *)
Fixpoint loadAll (urls : list string) : Completion (list HTMLImageElement) :=
  match urls with
  | [] => Return []
  | url :: urls' =>
      match loadImage url, loadAll urls' with
      | Return img, Return imgs => Return (img :: imgs)
      | Throw e, _ => Throw e
      | _, Throw e => Throw e
      end
  end.

(** [imageData] is given by its entries, in the order of [Object.keys]
    and [Object.values]. *)
Definition createAlbumPage (imageData : list (string * string))
  : Completion AlbumPage :=
  if negb contextAvailable
  then Throw (newError "Could not get 2D canvas context")
  else
    let characters := imageData.*1 in
    match loadAll imageData.*2 with
    | Throw e => Throw e
    | Return loadedImages =>
        let imagesWithCharacters := zip characters loadedImages in
        let reversedImages := reverse imagesWithCharacters in
        let cards :=
          imap (λ reversedIndex '(character, img),
                  let index :=
                    (length imagesWithCharacters - 1 - reversedIndex)%nat in
                  drawCard index character img (random reversedIndex))
               reversedImages in
        Return {| width := canvasWidth; height := canvasHeight;
                  ops := drawHeader ++ concat cards;
                  encoding := "image/jpeg"; quality := 9 # 10 |}
    end.

End Compositor.

(** ** Reading a page *)

(** A card as it can be read off the operations: the point the context
    was translated to (the centre of the card) and the caption written
    there. *)
Record PaintedCard := mkPainted {
  centreX : Q;
  centreY : Q;
  caption : string
}.

(** The cards of a sequence of operations, in the order they are
    painted: each text written between a [Translate] and the [Restore]
    that undoes it. *)
Fixpoint paintedCardsFrom (origin : option (Q * Q)) (l : list CanvasOp)
  : list PaintedCard :=
  match l with
  | [] => []
  | Translate x y :: l' => paintedCardsFrom (Some (x, y)) l'
  | Restore :: l' => paintedCardsFrom None l'
  | FillText t _ _ :: l' =>
      match origin with
      | Some (x, y) => mkPainted x y t :: paintedCardsFrom origin l'
      | None => paintedCardsFrom origin l'
      end
  | _ :: l' => paintedCardsFrom origin l'
  end.

Definition paintedCards (page : AlbumPage) : list PaintedCard :=
  paintedCardsFrom None (ops page).

(** The card of the grid cell of index [index], with caption [label]:
    centred on the cell of row [index / 2] and column [index mod 2]. *)
Definition cardAt (index : nat) (label : string) : PaintedCard :=
  mkPainted (cardX (index mod 2) + cardWidth / 2)
            (cardY (index / 2) + cardHeight / 2) label.

(** The rectangle of the grid cell in row [row] and column [col]:
    its left and top edges; its sides are [cellWidth] and
    [cellHeight]. *)
Definition cellLeft (col : nat) : Q :=
  padding * (inject_Z (Z.of_nat col) + 1) + cellWidth * inject_Z (Z.of_nat col).
Definition cellTop (row : nat) : Q :=
  contentTopMargin + padding * (inject_Z (Z.of_nat row) + 1)
  + cellHeight * inject_Z (Z.of_nat row).

End AlbumUtils.

(* ================================================================== *)
(** * App.tsx *)
(* ================================================================== *)

Module App.
Import Js.
Export GeminiService (Gender(..)).

Inductive ImageStatus := Pending | Done | Error.

Record GeneratedImage := mkGeneratedImage {
  status : ImageStatus;
  url : option string;
  error : option string
}.

Record GenerationItem := mkItem {
  character : string;
  map : string;
  scenario : string
}.

Inductive AppPhase := idle | analyzing | generating | results_shown.

(** The state hooks of the component. *)
Record State := mkState {
  uploadedImage : option string;
  generatedImages : gmap string GeneratedImage;
  isLoading : bool;
  appState : AppPhase;
  generationItems : list GenerationItem;
  detectedGender : option Gender
}.

(** [!!uploadedImage]: neither [null] nor the empty string. *)
Definition truthy (s : option string) : bool :=
  match s with
  | Some (String _ _) => true
  | _ => false
  end.

Definition setGeneratedImages
    (f : gmap string GeneratedImage → gmap string GeneratedImage)
    (s : State) : State :=
  {| uploadedImage := uploadedImage s;
     generatedImages := f (generatedImages s);
     isLoading := isLoading s; appState := appState s;
     generationItems := generationItems s;
     detectedGender := detectedGender s |}.

Definition setIsLoading (b : bool) (s : State) : State :=
  {| uploadedImage := uploadedImage s;
     generatedImages := generatedImages s;
     isLoading := b; appState := appState s;
     generationItems := generationItems s;
     detectedGender := detectedGender s |}.

Definition setAppState (p : AppPhase) (s : State) : State :=
  {| uploadedImage := uploadedImage s;
     generatedImages := generatedImages s;
     isLoading := isLoading s; appState := p;
     generationItems := generationItems s;
     detectedGender := detectedGender s |}.

Definition pendingImage : GeneratedImage :=
  {| status := Pending; url := None; error := None |}.

(** The update both [processItem] and [handleRegenerateCharacter] make
    when [generateCharacterImage] settles: the [done] entry of the [try]
    branch, or the [error] entry of the [catch] branch. *)
Definition settledImage (outcome : Completion string) : GeneratedImage :=
  match outcome with
  | Return resultUrl =>
      {| status := Done; url := Some resultUrl; error := None |}
  | Throw err =>
      let errorMessage :=
        if isErrorInstance err then err_message err
        else "An unknown error occurred." in
      {| status := Error; url := None; error := Some errorMessage |}
  end.

(** A call of [generateCharacterImage]. *)
Record GenerationCall := mkCall {
  call_imageDataUrl : string;
  call_prompt : string
}.

Section Handlers.

(** [generatePrompt] differs between the two versions of the component
    in the repository; the handlers below are the same in both and only
    pass its result on. *)
Variable generatePrompt : GenerationItem → option Gender → string.

(** ** The worker pool of [handleGenerateClick] *)

Definition concurrencyLimit : nat := 2.

(** Where a worker stands: at the test of its [while] loop, suspended in
    [await processItem(item)] with the generation of [item] unsettled, or
    returned. *)
Inductive Worker :=
| AtLoopTest
| Awaiting (item : GenerationItem)
| Returned.

(** A run of [handleGenerateClick] between two suspension points.
    [started] and [settled] log, in order, the items for which
    [generateCharacterImage] was called and those whose call has
    settled; [joined] tells that [Promise.all(workers)] has resumed the
    handler. *)
Record Run := mkRun {
  react : State;
  itemsQueue : list GenerationItem;
  workers : list Worker;
  started : list GenerationItem;
  settled : list GenerationItem;
  joined : bool
}.

(** [initialImages], filled by the [forEach] over the items. *)
Definition initialImages (items : list GenerationItem)
  : gmap string GeneratedImage :=
  foldl (λ acc item, <[character item := pendingImage]> acc) ∅ items.

(** The synchronous start of [handleGenerateClick], up to the creation
    of the workers; [None] when the guard returns at once. *)
Definition handleGenerateClick (s : State) : option Run :=
  if negb (truthy (uploadedImage s)) || (length (generationItems s) =? 0)
  then None
  else
    let s1 := setIsLoading true s in
    let s2 := setGeneratedImages
                (λ _, initialImages (generationItems s)) s1 in
    Some {| react := s2;
            itemsQueue := generationItems s;
            workers := replicate concurrencyLimit AtLoopTest;
            started := []; settled := [];
            joined := false |}.

(** The call [processItem] makes for [item]. *)
Definition callFor (s : State) (item : GenerationItem) : GenerationCall :=
  {| call_imageDataUrl := default "" (uploadedImage s);
     call_prompt := generatePrompt item (detectedGender s) |}.

(** One turn of the event loop.
    - [step_shift]: a worker finds the queue non-empty, shifts its head
      and calls [processItem], which runs up to its [await];
    - [step_return]: a worker finds the queue empty and returns;
    - [step_settle]: the generation a worker waits for settles, with any
      outcome; [processItem] records it and the worker is back at its
      loop test;
    - [step_join]: all workers have returned; the handler resumes after
      [Promise.all].
    Between two awaits a worker runs alone, so the test of the queue and
    the shift are one turn.  The turns of the workers interleave in any
    order; the order of the browser, in which the workers are started
    one after the other and each runs up to its first await, is one of
    them.  The outcome of a generation is whatever
    [generateCharacterImage(uploadedImage, prompt)] settles with, a URL
    or a thrown value: [processItem] catches the latter, so a worker
    never fails. *)
Inductive step : Run → Run → Prop :=
| step_shift r w item rest :
    workers r !! w = Some AtLoopTest →
    itemsQueue r = item :: rest →
    step r {| react := react r;
              itemsQueue := rest;
              workers := <[w := Awaiting item]> (workers r);
              started := started r ++ [item];
              settled := settled r;
              joined := joined r |}
| step_return r w :
    workers r !! w = Some AtLoopTest →
    itemsQueue r = [] →
    step r {| react := react r;
              itemsQueue := itemsQueue r;
              workers := <[w := Returned]> (workers r);
              started := started r;
              settled := settled r;
              joined := joined r |}
| step_settle r w item outcome :
    workers r !! w = Some (Awaiting item) →
    step r {| react := setGeneratedImages
                         (λ prev, <[character item := settledImage outcome]> prev)
                         (react r);
              itemsQueue := itemsQueue r;
              workers := <[w := AtLoopTest]> (workers r);
              started := started r;
              settled := settled r ++ [item];
              joined := joined r |}
| step_join r :
    Forall (λ wk, wk = Returned) (workers r) →
    joined r = false →
    step r {| react := setAppState results_shown (setIsLoading false (react r));
              itemsQueue := itemsQueue r;
              workers := workers r;
              started := started r;
              settled := settled r;
              joined := true |}.

(** The turns of the event loop as a function: what a turn does is
    fixed by the worker that runs, and for a settlement by its outcome.
    [perform] runs one turn, if it can be run, and [performAll] a
    sequence of turns. *)
Inductive Turn :=
| Shift (w : nat)
| Exit (w : nat)
| Settle (w : nat) (outcome : Completion string)
| Join.

Definition isReturned (wk : Worker) : bool :=
  match wk with Returned => true | _ => false end.

Definition perform (t : Turn) (r : Run) : option Run :=
  match t with
  | Shift w =>
      match workers r !! w, itemsQueue r with
      | Some AtLoopTest, item :: rest =>
          Some {| react := react r;
                  itemsQueue := rest;
                  workers := <[w := Awaiting item]> (workers r);
                  started := started r ++ [item];
                  settled := settled r;
                  joined := joined r |}
      | _, _ => None
      end
  | Exit w =>
      match workers r !! w, itemsQueue r with
      | Some AtLoopTest, [] =>
          Some {| react := react r;
                  itemsQueue := itemsQueue r;
                  workers := <[w := Returned]> (workers r);
                  started := started r;
                  settled := settled r;
                  joined := joined r |}
      | _, _ => None
      end
  | Settle w outcome =>
      match workers r !! w with
      | Some (Awaiting item) =>
          Some {| react := setGeneratedImages
                             (λ prev,
                                <[character item := settledImage outcome]> prev)
                             (react r);
                  itemsQueue := itemsQueue r;
                  workers := <[w := AtLoopTest]> (workers r);
                  started := started r;
                  settled := settled r ++ [item];
                  joined := joined r |}
      | _ => None
      end
  | Join =>
      if forallb isReturned (workers r) && negb (joined r)
      then Some {| react := setAppState results_shown
                              (setIsLoading false (react r));
                   itemsQueue := itemsQueue r;
                   workers := workers r;
                   started := started r;
                   settled := settled r;
                   joined := true |}
      else None
  end.

Fixpoint performAll (ts : list Turn) (r : Run) : option Run :=
  match ts with
  | [] => Some r
  | t :: ts' =>
      match perform t r with
      | Some r' => performAll ts' r'
      | None => None
      end
  end.

(** The tasks that are in flight: started and not yet settled. *)
Definition inFlight (r : Run) : nat := length (started r) - length (settled r).

Definition awaited (wk : Worker) : list GenerationItem :=
  match wk with Awaiting item => [item] | _ => [] end.

(** A terminal status. *)
Definition terminal (img : GeneratedImage) : Prop :=
  status img = Done ∨ status img = Error.

(** The number of turns of the event loop that are left. *)
Definition workerFuel (wk : Worker) : nat :=
  match wk with
  | Awaiting _ => 2
  | AtLoopTest => 1
  | Returned => 0
  end.

Definition fuel (r : Run) : nat :=
  2 * length (itemsQueue r) + sum_list (workerFuel <$> workers r)
  + (if joined r then 0 else 1).

(** What every reachable run of the pool over [items] satisfies. *)
Record Inv (items : list GenerationItem) (r : Run) : Prop := mkInv {
  inv_workers : length (workers r) = concurrencyLimit;
  inv_fifo : started r ++ itemsQueue r = items;
  inv_once : started r ≡ₚ settled r ++ concat (awaited <$> workers r);
  inv_drained :
    ∀ w, workers r !! w = Some Returned → itemsQueue r = [];
  inv_terminal :
    ∀ item, item ∈ settled r →
      ∃ img, generatedImages (react r) !! character item = Some img
             ∧ terminal img;
  inv_joined :
    joined r = true →
    Forall (λ wk, wk = Returned) (workers r)
    ∧ isLoading (react r) = false ∧ appState (react r) = results_shown
}.

(** ** Regeneration of one card *)

(** The synchronous start of [handleRegenerateCharacter]: the state it
    leaves and the call it makes, if any.  [generatedImages] is read
    from the state the handler was created in, which the model takes to
    be the current one. *)
Definition handleRegenerateCharacter (s : State) (character0 : string)
  : State * option GenerationCall :=
  if negb (truthy (uploadedImage s)) then (s, None)
  else
    match find (λ item, String.eqb (character item) character0)
               (generationItems s) with
    | None => (s, None)
    | Some itemToRegenerate =>
        match status <$> generatedImages s !! character0 with
        | Some Pending => (s, None)
        | _ =>
            (setGeneratedImages (λ prev, <[character0 := pendingImage]> prev) s,
             Some (callFor s itemToRegenerate))
        end
    end.

(** The rest of [handleRegenerateCharacter], when the call settles. *)
Definition regenerationSettled (s : State) (character0 : string)
    (outcome : Completion string) : State :=
  setGeneratedImages (λ prev, <[character0 := settledImage outcome]> prev) s.

End Handlers.

End App.

(** ** The prompt *)

(** [generatePrompt] and [MAP_DESCRIPTIONS] of the version of the
    component whose prompts carry the marker that [extractCharacter]
    looks for. *)
Module Prompt.
Import App.

Definition MAP_DESCRIPTIONS : gmap string string :=
  list_to_map
    [ ("Erangel", "a lush, green Eastern European island with dense forests, rolling grassy hills, and abandoned Soviet-style towns.");
      ("Miramar", "a vast, sun-scorched desert with arid landscapes, rocky canyons, small villages, and a large city.");
      ("Sanhok", "a dense, tropical jungle island inspired by Southeast Asia, with ancient ruins, riverside villages, and thick vegetation.");
      ("Vikendi", "a snow-covered northern European island with frozen lakes, coniferous forests, a dinosaur-themed park, and quaint mountain towns.");
      ("Karakin", "a small, arid North African island with rocky terrain, underground tunnels, and destructible buildings.");
      ("a deserted city", "an abandoned, post-apocalyptic city with crumbling skyscrapers, overgrown streets, and a sense of eerie silence.");
      ("a weathered battlefield", "a war-torn landscape scarred with trenches, craters, and the remnants of past battles, under a grey, overcast sky.") ].

Definition nl : string := String "010" "".
Definition dq : string := String JsString.quote "".

Definition generatePrompt (item : GenerationItem) (gender : option Gender)
  : string :=
  let genderClause :=
    match gender with
    | Some Male => " as a male character"
    | Some Female => " as a female character"
    | _ => ""
    end in
  let mapDescription :=
    match MAP_DESCRIPTIONS !! map item with
    | Some (String c d) => String c d
    | _ => "the battle royale map " +:+ dq +:+ map item +:+ dq
    end in
  nl +:+ "**PRIORITY 1: FACE ACCURACY & VISIBILITY**" +:+ nl +:+
  "The face of the character in the generated image MUST be a PERFECT and EXACT replica of the face from the uploaded photo. Every facial feature must be preserved. CRITICALLY, the face must be fully visible and NOT be covered by any helmets, masks, or headgear, even if the outfit typically includes them. The goal is to see the person's face clearly." +:+ nl +:+
  nl +:+ "**PRIORITY 2: SCENE DESCRIPTION**" +:+ nl +:+
  "Reimagine the person from the photo" +:+ genderClause +:+
  ", wearing the iconic PUBG outfit: " +:+ dq +:+ character item +:+ dq +:+ "."
  +:+ nl +:+
  nl +:+ "**ACTION:** Place them in a dynamic, high-action pose, captured mid-moment during this scenario: "
  +:+ dq +:+ scenario item +:+ dq +:+ "." +:+ nl +:+
  nl +:+ "**ENVIRONMENT:** The setting is " +:+ mapDescription +:+
  ". The environment must be highly detailed, graphically rich, and recognizable as the described map."
  +:+ nl +:+
  nl +:+ "**STYLE:** The final output must be a gritty, photorealistic, and cinematic image that looks like a high-resolution screenshot from a next-generation video game."
  +:+ nl.

End Prompt.

(* ================================================================== *)
(** * Notions used to state the properties *)
(* ================================================================== *)

Module Spec.
Import JsString Js GeminiService.

(** A data URL of an image: [data:image/<word>;base64,<payload>], with a
    non-empty word of word characters and a payload on one line. *)
Definition DataUrlPattern (url : string) : Prop :=
  ∃ word payload,
    url = "data:image/" +:+ word +:+ ";base64," +:+ payload
    ∧ word ≠ ""
    ∧ allWordChars word = true
    ∧ noLineTerminator payload = true.

(** The message the program reads of a caught value:
    [error instanceof Error ? error.message : JSON.stringify(error)]. *)
Definition caughtMessage (error : JsError) : string :=
  if isErrorInstance error then err_message error else err_json error.

Section Attempt.
Variable remote : nat → Request → Completion GenerateContentResponse.
Variable random : nat → Q.

(** One attempt of [generateCharacterImage] with the text [text]: the
    body of each of its two [try] blocks, a remote call under
    [withRetry] followed by [processGeminiResponse]. *)
Definition attempt (mimeType base64Data text : string) : M string :=
  await response ←
    withRetry random
      (generateContent remote (imageRequest mimeType base64Data text));
  processGeminiResponse response.

End Attempt.

End Spec.

(** Sample inputs, used to run the model. *)
Module Sample.
Import JsString Js GeminiService.

Definition world0 : World := {| calls := []; sleeps := []; draws := 0 |}.

Definition photo : string := "data:image/png;base64,iVBORw0KGgo=".

Definition textReply (t : string) : Completion GenerateContentResponse :=
  Return {| parts := [mkPart None]; text := Some t |}.

Definition imageReply (payload : string) : Completion GenerateContentResponse :=
  Return {| parts := [mkPart (Some (mkInlineData "image/png" payload))];
            text := None |}.

(** An error of the client library for a status that is not retried. *)
Definition quotaError : JsError :=
  {| isErrorInstance := true; err_message := "Quota exceeded";
     err_status := Some 429%Z; err_inner_code := None;
     err_inner_message := ""; err_json := "{}";
     err_string := "Error: Quota exceeded" |}.

(** A rejection with a plain object that carries a retriable status. *)
Definition unavailable : JsError :=
  {| isErrorInstance := false; err_message := "";
     err_status := None; err_inner_code := Some 503%Z;
     err_inner_message := "The model is overloaded";
     err_json := "{}"; err_string := "[object Object]" |}.

Definition noJitter : nat → Q := λ _, 0%Q.
Definition halfJitter : nat → Q := λ _, (1 # 2)%Q.

(** A prompt of the component, which carries the marker of
    [extractCharacter]. *)
Definition markedPrompt : string :=
  Prompt.generatePrompt
    (App.mkItem "Ghillie Suit" "Erangel" "looting a rare airdrop crate")
    (Some Male).

(** A reply without an image part, and the world once it has come as
    the answer to the first request, for [markedPrompt]. *)
Definition refusal : GenerateContentResponse :=
  {| parts := [mkPart None]; text := Some "I cannot create that image." |}.

Definition worldAfterPrimary : World :=
  {| calls := [imageRequest "image/png" "iVBORw0KGgo=" markedPrompt];
     sleeps := []; draws := 0 |}.

Definition worldAfterFallback : World :=
  {| calls := [imageRequest "image/png" "iVBORw0KGgo=" markedPrompt;
               imageRequest "image/png" "iVBORw0KGgo="
                 (getFallbackPrompt "Ghillie Suit")];
     sleeps := []; draws := 0 |}.

(** The error [processGeminiResponse] throws for [refusal]. *)
Definition refusalError : JsError :=
  newError (noImageMessage +:+ ": " +:+ dq +:+ "I cannot create that image."
            +:+ dq).

(** The model answers every request with the one word [Female]. *)
Definition remoteFemale : nat → Request → Completion GenerateContentResponse :=
  λ _ _, textReply "Female".

(** The first request is answered with text only, every later one fails
    with [quotaError]. *)
Definition remoteRejectThenQuota
  : nat → Request → Completion GenerateContentResponse :=
  λ i _, match i with
         | 0 => Return refusal
         | _ => Throw quotaError
         end.

Definition flakyRequest : Request :=
  imageRequest "image/png" "iVBORw0KGgo=" "a prompt".

(** Two overloaded answers, then an image. *)
Definition remoteFlaky : nat → Request → Completion GenerateContentResponse :=
  λ i _, match i with
         | 0 | 1 => Throw unavailable
         | _ => imageReply "AAAA"
         end.

End Sample.

(** Sample inputs for the compositor and the component. *)
Module SampleApp.
Import Js.

(** Four results, with images of four shapes. *)
Definition fourPhotos : list (string * string) :=
  [ ("Ghillie Suit", "data:image/png;base64,AAAA");
    ("Ranger Set", "data:image/png;base64,BBBB");
    ("PMC Uniform", "data:image/png;base64,CCCC");
    ("Valkyrie Set", "data:image/png;base64,DDDD") ].

Definition decodeFour (url : string) : option AlbumUtils.HTMLImageElement :=
  if String.eqb url "data:image/png;base64,AAAA"
  then Some (AlbumUtils.mkImage 1024 1024)
  else if String.eqb url "data:image/png;base64,BBBB"
  then Some (AlbumUtils.mkImage 1280 720)
  else if String.eqb url "data:image/png;base64,CCCC"
  then Some (AlbumUtils.mkImage 768 1344)
  else if String.eqb url "data:image/png;base64,DDDD"
  then Some (AlbumUtils.mkImage 800 600)
  else None.

Definition fourItems : list App.GenerationItem :=
  [ App.mkItem "Ghillie Suit" "Erangel" "looting a rare airdrop crate";
    App.mkItem "Ranger Set" "Miramar" "in a tense firefight";
    App.mkItem "PMC Uniform" "Sanhok" "setting up an ambush";
    App.mkItem "Valkyrie Set" "Vikendi" "in the final circle showdown" ].

(** The component when generation is about to start. *)
Definition lobby : App.State :=
  {| App.uploadedImage := Some "data:image/png;base64,iVBORw0KGgo=";
     App.generatedImages := ∅;
     App.isLoading := false;
     App.appState := App.generating;
     App.generationItems := fourItems;
     App.detectedGender := Some GeminiService.Male |}.

(** A run in which the first generation fails and the three others
    succeed. *)
Definition schedule : list App.Turn :=
  [ App.Shift 0; App.Shift 1;
    App.Settle 0 (Throw (newError "The AI model failed to generate an image."));
    App.Shift 0;
    App.Settle 1 (Return "data:image/png;base64,BBBB");
    App.Shift 1;
    App.Settle 0 (Return "data:image/png;base64,CCCC");
    App.Exit 0;
    App.Settle 1 (Return "data:image/png;base64,DDDD");
    App.Exit 1;
    App.Join ].


End SampleApp.

(* ================================================================== *)
(** * App.tsx: the upload handler, the prompts and the album buttons *)
(* ================================================================== *)

Module Upload.
Import Js GeminiService App.

Definition setDetectedGender (g : option Gender) (s : State) : State :=
  {| uploadedImage := uploadedImage s;
     generatedImages := generatedImages s;
     isLoading := isLoading s; appState := appState s;
     generationItems := generationItems s;
     detectedGender := g |}.

Definition setGenerationItems (items : list GenerationItem) (s : State)
  : State :=
  {| uploadedImage := uploadedImage s;
     generatedImages := generatedImages s;
     isLoading := isLoading s; appState := appState s;
     generationItems := items;
     detectedGender := detectedGender s |}.

Definition setUploadedImage (image : option string) (s : State) : State :=
  {| uploadedImage := image;
     generatedImages := generatedImages s;
     isLoading := isLoading s; appState := appState s;
     generationItems := generationItems s;
     detectedGender := detectedGender s |}.

Definition NUM_IMAGES_TO_GENERATE : nat := 4.

(** The swap [[a[i], a[j]] = [a[j], a[i]]]: the two elements are read,
    then written crosswise.  The shuffle calls it with both indices in
    the array; outside it the model leaves the array as it is. *)
Definition swap {T} (i j : nat) (a : list T) : list T :=
  match a !! i, a !! j with
  | Some x, Some y => <[i := y]> (<[j := x]> a)
  | _, _ => a
  end.

Section Shuffle.
Variable random : nat → Q.

(** [Math.floor(Math.random() * n)] *)
Definition randomBelow (n : nat) : M nat :=
  await r ← mathRandom random;
  ret (Z.to_nat (Qfloor (r * inject_Z (Z.of_nat n)))).

(** The loop [for (i = ...; i > 0; i--)] of [shuffleArray], from the
    index [i] down. *)
Fixpoint shuffleFrom {T} (i : nat) (newArray : list T) : M (list T) :=
  match i with
  | 0 => ret newArray
  | S i' =>
      await j ← randomBelow (i + 1);
      shuffleFrom i' (swap i j newArray)
  end.

(** The Fisher-Yates shuffle of a copy of [array]. *)
Definition shuffleArray {T} (array : list T) : M (list T) :=
  let newArray := array in
  shuffleFrom (length newArray - 1) newArray.

End Shuffle.

Section Handler.
Variable remote : nat → Request → Completion GenerateContentResponse.
Variable random : nat → Q.

(** The word lists of the component, which differ between its two
    versions. *)
Variables maleOutfits femaleOutfits maps scenarios : list string.

(** [array[i % array.length]]; the lists are not empty, so the element
    is there. *)
Definition cyclic (array : list string) (i : nat) : string :=
  default "" (array !! (i mod length array)).

Definition analysisAlert : string :=
  "Sorry, we couldn't analyze your photo. Please try another one.".

(** The [onloadend] callback of [handleImageUpload], for the data URL
    the reader has produced: the state it leaves and the alert it
    shows, if any.  The reset of the [generationTriggered] ref, which
    lets the effect start the generation, is not part of the state. *)
Definition onloadend (imageDataUrl : string) (s : State)
  : M (State * option string) :=
  let s := setAppState analyzing s in
  tryCatch
    (await gender ← detectGender remote random imageDataUrl;
     await pool ←
       match gender with
       | Male => ret maleOutfits
       | Female => ret femaleOutfits
       | Unknown => shuffleArray random (maleOutfits ++ femaleOutfits)
       end;
     await shuffledPool ← shuffleArray random pool;
     let randomOutfits := take NUM_IMAGES_TO_GENERATE shuffledPool in
     await randomMaps ← shuffleArray random maps;
     await randomScenarios ← shuffleArray random scenarios;
     let items :=
       imap (λ i character,
               {| character := character;
                  map := cyclic randomMaps i;
                  scenario := cyclic randomScenarios i |})
            randomOutfits in
     ret (setAppState generating
            (setGeneratedImages (λ _, ∅)
               (setUploadedImage (Some imageDataUrl)
                  (setGenerationItems items
                     (setDetectedGender (Some gender) s)))),
          None))
    (λ error, ret (setAppState idle s, Some analysisAlert)).

End Handler.

End Upload.

(** The word lists, the prompt and the upload handler of [App.tsx]. *)
Module Lobby.
Import Js GeminiService App.

Definition nl : string := String "010" "".
Definition dq : string := String JsString.quote "".

Definition COMMON_MALE_OUTFITS : list string :=
  [ "Iconic trench coat with a level 1 helmet";
    "White shirt, tie, and blue jeans from the loading screen";
    "Full tactical gear with a level 3 helmet and vest";
    "Ghillie suit for stealthy camouflage";
    "Biker jacket, ripped jeans, and combat boots";
    "Camo cargo pants and a dark t-shirt";
    "Padded jacket for cold weather maps";
    "Simple hoodie and jeans for a casual look" ].

Definition COMMON_FEMALE_OUTFITS : list string :=
  [ "Pleated mini-skirt and white shirt (schoolgirl outfit)";
    "Leather hotpants and a cropped tank top";
    "Full tactical gear with a level 2 helmet and vest";
    "Plaid shirt, denim shorts, and combat boots";
    "Floral print dress for a surprising look on the battlefield";
    "Black turtleneck and tactical pants";
    "Ghillie suit for maximum concealment";
    "Sporty tracksuit with sneakers" ].

Definition MAPS : list string :=
  [ "Georgopol, Erangel";
    "Pochinki, Erangel";
    "Hacienda del Patrón, Miramar";
    "Pecado, Miramar";
    "Bootcamp, Sanhok";
    "Paradise Resort, Sanhok";
    "Dino Park, Vikendi";
    "Castle, Vikendi" ].

Definition SCENARIOS : list string :=
  [ "looting a rare airdrop crate";
    "taking cover behind a rock";
    "scouting from a high vantage point";
    "driving a Dacia across a bridge";
    "celebrating a " +:+ dq +:+ "Winner Winner Chicken Dinner!" +:+ dq;
    "reviving a downed teammate";
    "peeking around a corner of a building";
    "throwing a smoke grenade for cover";
    "parachuting onto the island";
    "gearing up for the final circle";
    "healing up with a first aid kit";
    "in a tense standoff inside a house" ].

Definition MAP_DESCRIPTIONS : gmap string string :=
  list_to_map
    [ ("Georgopol, Erangel",
       "the large port city of Georgopol on Erangel, with its towering cranes, shipping containers, and apartment buildings.");
      ("Pochinki, Erangel",
       "the iconic, centrally located town of Pochinki on Erangel, famous for its dense cluster of buildings and popular for early-game encounters.");
      ("Hacienda del Patrón, Miramar",
       "the luxurious Hacienda del Patrón in Miramar, a large villa surrounded by walls, a prime location for high-tier loot.");
      ("Pecado, Miramar",
       "the bustling city of Pecado in Miramar, featuring a large casino and a boxing arena that attract bold players.");
      ("Bootcamp, Sanhok",
       "the central military training facility of Bootcamp on Sanhok, a compact and action-packed area for skilled players.");
      ("Paradise Resort, Sanhok",
       "the scenic Paradise Resort on Sanhok, a beautiful but dangerous location with multiple hotel buildings and courtyards.");
      ("Dino Park, Vikendi",
       "the abandoned, snow-covered Dino Park on Vikendi, complete with dinosaur statues, a maze, and a roller coaster.");
      ("Castle, Vikendi",
       "the majestic, snow-dusted Castle on Vikendi, a multi-level fortress surrounded by a moat, offering strategic high ground.") ].

Definition generatePrompt (item : GenerationItem) (gender : option Gender)
  : string :=
  let genderClause :=
    match gender with
    | Some Male => "male"
    | Some Female => "female"
    | _ => "person"
    end in
  let mapDescription :=
    match MAP_DESCRIPTIONS !! map item with
    | Some (String c d) => String c d
    | _ => "the battle royale map " +:+ dq +:+ map item +:+ dq
    end in
  nl +:+ "Photo edit request: Change the person in the photo into a " +:+
  genderClause +:+ " video game character." +:+ nl +:+
  "- **Outfit:** Dress them in the following PUBG outfit: " +:+ dq +:+
  character item +:+ dq +:+ "." +:+ nl +:+
  "- **Face:** Their face must be perfectly preserved from the original photo and must be fully visible. Do not add any masks, helmets, or face coverings unless specified in the outfit description." +:+
  nl +:+ "- **Action:** Place them in the following scene: " +:+ dq +:+
  scenario item +:+ dq +:+ "." +:+ nl +:+
  "- **Location:** The background should be " +:+ mapDescription +:+ "." +:+
  nl +:+
  "- **Style:** The final image should have the high-quality, realistic style of a modern video game." +:+
  nl.

Definition handleImageUpload
    (remote : nat → Request → Completion GenerateContentResponse)
    (random : nat → Q) : string → State → M (State * option string) :=
  Upload.onloadend remote random
    COMMON_MALE_OUTFITS COMMON_FEMALE_OUTFITS MAPS SCENARIOS.

End Lobby.

(** The word lists and the upload handler of the earlier version of the
    component, whose prompt is [Prompt.generatePrompt]. *)
Module EarlierLobby.
Import Js GeminiService App.

Definition dq : string := String JsString.quote "".

Definition MALE_CHARACTERS : list string :=
  [ "The Fool Set";
    "Blood Raven X-Suit";
    "Ghillie Suit";
    "Golden Pharaoh X-Suit";
    "Enraged Unicorn Set";
    "Executioner Set";
    "Lone Survivor Set";
    "Tidal Embrace Set";
    "White Rabbit Set";
    "Black Cat Set";
    "Ranger Set";
    "PMC Uniform" ].

Definition FEMALE_CHARACTERS : list string :=
  [ "Silvanus X-Suit";
    "Valkyrie Set";
    "Jester Set";
    "Avalanche X-Suit";
    "Medical Robe Set";
    "Noble Lineage Set";
    "Stray Rebellion Set";
    "Forest Warrior Set";
    "Cyber Enforcer Set";
    "Maverick Set";
    "Lady of Blood Set";
    "Infectious Bugs Set" ].

Definition MAPS : list string :=
  [ "Erangel";
    "Miramar";
    "Sanhok";
    "Vikendi";
    "Karakin";
    "a deserted city";
    "a weathered battlefield" ].

Definition SCENARIOS : list string :=
  [ "looting a rare airdrop crate";
    "in a tense firefight";
    "scouting from a high vantage point";
    "driving a UAZ across a field";
    "celebrating a " +:+ dq +:+ "Winner Winner Chicken Dinner!" +:+ dq;
    "emerging from the blue zone";
    "setting up an ambush";
    "parachuting onto the battlegrounds";
    "in the final circle showdown" ].

Definition handleImageUpload
    (remote : nat → Request → Completion GenerateContentResponse)
    (random : nat → Q) : string → State → M (State * option string) :=
  Upload.onloadend remote random
    MALE_CHARACTERS FEMALE_CHARACTERS MAPS SCENARIOS.

End EarlierLobby.

(** The album buttons, up to their call of [createAlbumPage]. *)
Module AlbumButtons.
Import Js App.

(** [image.status === 'done' && image.url]: the URL of a finished
    image. *)
Definition doneUrl (image : GeneratedImage) : option string :=
  match status image, url image with
  | Done, Some (String c u) => Some (String c u)
  | _, _ => None
  end.

(** The [imageData] both buttons build: the entries of
    [generatedImages] that are done, with their URLs. *)
Definition albumImageData (images : gmap string GeneratedImage)
  : gmap string string :=
  omap doneUrl images.

Inductive AlbumRequest :=
| Alert (message : string)
| Compose (imageData : gmap string string).

Definition handleDownloadAlbum (s : State) : AlbumRequest :=
  let imageData := albumImageData (generatedImages s) in
  if size imageData <? length (generationItems s)
  then Alert "Please wait for all images to finish generating before downloading the album."
  else Compose imageData.

Definition handleShareAlbum (s : State) : AlbumRequest :=
  let imageData := albumImageData (generatedImages s) in
  if size imageData =? 0
  then Alert "There are no generated images to share in an album."
  else Compose imageData.

End AlbumButtons.

(** Further notions used to state properties. *)
Module Spec2.
Import JsString Js GeminiService.

(** The marker of [extractCharacter] starts at no position of [pre],
    when [pre] is followed by the marker. *)
Fixpoint markerFree (pre : string) : bool :=
  match pre with
  | "" => true
  | String _ pre' =>
      negb (startsWith (pre +:+ outfitMarker) outfitMarker) && markerFree pre'
  end.

(** The part of a string before the first position at which the marker
    starts. *)
Fixpoint upToMarker (s : string) : string :=
  match s with
  | "" => ""
  | String c s' =>
      if startsWith s outfitMarker then "" else String c (upToMarker s')
  end.

(** What [Prompt.generatePrompt] writes before the marker. *)
Definition promptHead (gender : option Gender) : string :=
  upToMarker (Prompt.generatePrompt (App.mkItem "" "" "") gender).

(** No character of a string is white space. *)
Fixpoint noSpace (s : string) : bool :=
  match s with
  | "" => true
  | String c s' => negb (isSpace c) && noSpace s'
  end.

(** The list the upload handler draws the outfits from, for a detected
    gender. *)
Definition poolOf (maleOutfits femaleOutfits : list string) (gender : Gender)
  : list string :=
  match gender with
  | Male => maleOutfits
  | Female => femaleOutfits
  | Unknown => maleOutfits ++ femaleOutfits
  end.

(** The sum of a list of delays. *)
Definition total (delays : list Q) : Q := foldr Qplus 0%Q delays.

(** A generator that answers as [Math.random] does, in [0, 1). *)
Definition inUnitInterval (random : nat → Q) : Prop :=
  ∀ i, (0 <= random i)%Q ∧ (random i < 1)%Q.

End Spec2.

(** Further readings of a page. *)
Module AlbumSpec.
Import AlbumUtils.
Local Open Scope Q_scope.

(** The images drawn, each with the rectangle it is drawn into: [x],
    [y], width and height of the [drawImage]. *)
Definition drawnImages (l : list CanvasOp)
  : list (HTMLImageElement * (Q * Q * Q * Q)) :=
  omap (λ op, match op with
              | DrawImage img x y w h => Some (img, (x, y, w, h))
              | _ => None
              end) l.

(** The angles of the rotations. *)
Definition rotations (l : list CanvasOp) : list Q :=
  omap (λ op, match op with Rotate angle => Some angle | _ => None end) l.

(** Every [translate] and [rotate] is made between a [save] and the
    [restore] that undoes it, saves are not nested, and no [restore]
    comes without its [save]; [depth] counts the saves that are open. *)
Fixpoint transformsScoped (depth : nat) (l : list CanvasOp) : bool :=
  match l with
  | [] => (depth =? 0)%nat
  | Save :: l' => (depth =? 0)%nat && transformsScoped (S depth) l'
  | Restore :: l' =>
      match depth with
      | S d => transformsScoped d l'
      | O => false
      end
  | Translate _ _ :: l' | Rotate _ :: l' =>
      (0 <? depth)%nat && transformsScoped depth l'
  | _ :: l' => transformsScoped depth l'
  end.

(** The images of a decoder have positive sides. *)
Definition decodesProperImages (decode : string → option HTMLImageElement)
  : Prop :=
  ∀ url img, decode url = Some img →
    (0 < naturalWidth img)%Z ∧ (0 < naturalHeight img)%Z.

End AlbumSpec.

(** What the status board shows during a run of the pool. *)
Module PoolSpec.
Import App.

(** The state of the component in a run [r] of [handleGenerateClick]
    started in the state [s]: the board has one entry for each label,
    the entry of an item that waits in the queue or is being generated
    is the pending one, and the handler touches nothing but the board
    before it resumes after the workers. *)
Record Board (s : State) (r : Run) : Prop := mkBoard {
  board_keys :
    dom (generatedImages (react r))
    = list_to_set (character <$> generationItems s);
  board_waiting :
    ∀ item, item ∈ itemsQueue r ++ concat (awaited <$> workers r) →
      generatedImages (react r) !! character item = Some pendingImage;
  board_photo : uploadedImage (react r) = uploadedImage s;
  board_items : generationItems (react r) = generationItems s;
  board_gender : detectedGender (react r) = detectedGender s;
  board_loading :
    joined r = false →
    isLoading (react r) = true ∧ appState (react r) = appState s
}.

End PoolSpec.

(* ================================================================== *)
(** * Facts about strings and the two matchers *)
(* ================================================================== *)

Module StringFacts.
Import JsString.
#[local] Arguments String.append : simpl nomatch.

Lemma append_nil_r (s : string) : s +:+ "" = s.
Proof. induction s as [|c s IH]; simpl; [done | by rewrite IH]. Qed.

Lemma append_assoc (s t u : string) : (s +:+ t) +:+ u = s +:+ t +:+ u.
Proof. induction s as [|c s IH]; simpl; [done | by rewrite IH]. Qed.

Lemma ascii_eqb_eq (a b : ascii) : Ascii.eqb a b = true ↔ a = b.
Proof. apply Ascii.eqb_eq. Qed.

Lemma startsWith_app (s p : string) :
  startsWith s p = true ↔ ∃ r, s = p +:+ r.
Proof.
  revert s; induction p as [|a p IH]; intros s; simpl.
  - split; [intros _; by exists s | done].
  - destruct s as [|b s]; simpl.
    + split; [done | intros [r Hr]; discriminate].
    + rewrite andb_true_iff, ascii_eqb_eq, IH. split.
      * intros [-> [r ->]]. eauto.
      * intros [r Hr]. injection Hr as -> ->. eauto.
Qed.

Lemma includes_app (s needle : string) :
  includes s needle = true ↔ ∃ l r, s = l +:+ needle +:+ r.
Proof.
  induction s as [|c s IH].
  - simpl. rewrite orb_false_r, startsWith_app. split.
    + intros [r Hr]. by exists "", r.
    + intros ([|a l] & r & Hr); [eauto | discriminate].
  - simpl. rewrite orb_true_iff, startsWith_app, IH. split.
    + intros [[r Hr] | (l & r & ->)].
      * by exists "", r.
      * by exists (String c l), r.
    + intros ([|a l] & r & Hr); simpl in Hr.
      * left. eauto.
      * right. injection Hr as -> ->. eauto.
Qed.

(** Every occurrence of [female] holds an occurrence of [male]. *)
Lemma includes_female_male (s : string) :
  includes s "female" = true → includes s "male" = true.
Proof.
  rewrite !includes_app. intros (l & r & ->).
  exists (l +:+ "fe"), r. by rewrite append_assoc.
Qed.

Lemma stripPrefix_Some (p s r : string) :
  stripPrefix p s = Some r ↔ s = p +:+ r.
Proof.
  revert s; induction p as [|a p IH]; intros s; simpl.
  - split; [by intros [= ->] | by intros ->].
  - destruct s as [|b s]; [split; discriminate |].
    destruct (Ascii.eqb a b) eqn:E.
    + apply ascii_eqb_eq in E as ->. rewrite IH.
      split; [by intros -> | by intros [= ->]].
    + split; [done |]. intros [= -> _]. by rewrite Ascii.eqb_refl in E.
Qed.

Lemma spanWord_app (s : string) :
  s = (spanWord s).1 +:+ (spanWord s).2 ∧ allWordChars (spanWord s).1 = true.
Proof.
  induction s as [|c s [IH1 IH2]]; simpl; [done |].
  destruct (isWordChar c) eqn:E; [| done].
  destruct (spanWord s) as [w r]; simpl in *. rewrite E, IH2. by rewrite <- IH1.
Qed.

Lemma spanWord_stop (w r : string) :
  allWordChars w = true → startsWith r ";" = true →
  spanWord (w +:+ r) = (w, r).
Proof.
  intros Hw [r' ->]%startsWith_app. induction w as [|c w IH]; simpl in *.
  - done.
  - apply andb_true_iff in Hw as [-> Hw]. by rewrite IH.
Qed.

End StringFacts.

(* ================================================================== *)
(** * Facts about the service *)
(* ================================================================== *)

Module DataUrlFacts.
Import JsString Js GeminiService Spec StringFacts.
#[local] Arguments stripPrefix : simpl never.
#[local] Arguments noLineTerminator : simpl never.

(** The matcher of the data URL expression accepts exactly the strings of
    the pattern. *)
Lemma matchDataUrl_pattern (url : string) :
  DataUrlPattern url ↔ is_Some (matchDataUrl url).
Proof.
  unfold matchDataUrl. split.
  - intros (word & payload & -> & Hne & Hw & Hp).
    pose proof (proj2 (stripPrefix_Some "data:image/" _ _)
                  (eq_refl ("data:image/" +:+ word +:+ ";base64," +:+ payload)))
      as ->.
    simpl. rewrite spanWord_stop by done.
    destruct word; [done |].
    pose proof (proj2 (stripPrefix_Some ";base64," _ _)
                  (eq_refl (";base64," +:+ payload))) as ->.
    simpl. rewrite Hp. eauto.
  - destruct (stripPrefix "data:image/" url) as [rest|] eqn:E1; simpl.
    2: { intros [? [=]]. }
    apply stripPrefix_Some in E1 as ->.
    destruct (spanWord_app rest) as [Hrest Hw].
    destruct (spanWord rest) as [word rest']; simpl in *.
    destruct word as [|c word]; simpl. { intros [? [=]]. }
    destruct (stripPrefix ";base64," rest') as [payload|] eqn:E2; simpl;
      [| intros [? [=]]].
    apply stripPrefix_Some in E2 as ->.
    destruct (noLineTerminator payload) eqn:E3; [| intros [? [=]]].
    intros _. exists (String c word), payload. by rewrite Hrest.
Qed.

Lemma matchDataUrl_None (url : string) :
  ¬ DataUrlPattern url → matchDataUrl url = None.
Proof.
  rewrite matchDataUrl_pattern. destruct (matchDataUrl url); [| done].
  intros []. eauto.
Qed.

End DataUrlFacts.

Module RetryFacts.
Import JsString Js GeminiService Spec StringFacts.

Section Retry.
Variable remote : nat → Request → Completion GenerateContentResponse.
Variable random : nat → Q.

Lemma isRetriable_spec (e : JsError) :
  isRetriable e = true ↔
  statusOf e = Some 500%Z ∨ statusOf e = Some 503%Z
  ∨ includes (toLowerCase (messageOf e)) "internal" = true.
Proof.
  unfold isRetriable. rewrite orb_true_iff. destruct (statusOf e) as [s|].
  - rewrite orb_true_iff, !Z.eqb_eq. split.
    + intros [[-> | ->] | H]; auto.
    + intros [[= ->] | [[= ->] | H]]; auto.
  - split; [intros [? | ?]; [done | auto] | intros [? | [? | ?]]; [done | done | auto]].
Qed.

Lemma backoffDelay_jitter (r : Q) :
  (0 <= r)%Q → (r < 1)%Q → (0 <= r * 1000)%Q ∧ (r * 1000 < 1000)%Q.
Proof. intros H0 H1. split; lra. Qed.

Lemma withRetryFrom_step (remaining attempt : nat) (request : Request)
    (w : World) :
  withRetryFrom random (S remaining) attempt (generateContent remote request) w =
  match remote (length (calls w)) request with
  | Return v =>
      (Return v,
       {| calls := calls w ++ [request]; sleeps := sleeps w; draws := draws w |})
  | Throw e =>
      if isRetriable e && (attempt <? maxRetries)
      then withRetryFrom random remaining (S attempt)
             (generateContent remote request)
             {| calls := calls w ++ [request];
                sleeps := sleeps w ++ [backoffDelay attempt (random (draws w))];
                draws := S (draws w) |}
      else (Throw (rethrow e),
            {| calls := calls w ++ [request]; sleeps := sleeps w;
               draws := draws w |})
  end.
Proof.
  cbn [withRetryFrom]. unfold tryCatch at 1. unfold generateContent at 1.
  destruct (remote (length (calls w)) request) as [v|e]; [done |].
  by destruct (isRetriable e && (attempt <? maxRetries)).
Qed.

Lemma withRetry_attempts (request : Request) (w : World) :
  let out := withRetry random (generateContent remote request) w in
  let outcome k := remote (length (calls w) + (k - 1)) request in
  (∃ n, 1 ≤ n ≤ 3
     ∧ calls out.2 = calls w ++ replicate n request
     ∧ sleeps out.2 =
         sleeps w ++
         ((λ k, backoffDelay k (random (draws w + (k - 1)))) <$> seq 1 (n - 1))
     ∧ (∀ k, 1 ≤ k < n → ∃ e, outcome k = Throw e ∧ isRetriable e = true)
     ∧ match outcome n with
       | Return v => out.1 = Return v
       | Throw e => (isRetriable e = false ∨ n = 3) ∧ out.1 = Throw (rethrow e)
       end).
Proof.
  intros out outcome. subst out outcome. unfold withRetry, maxRetries.
  assert (Hlen : ∀ l : list Request, length (l ++ [request]) = length l + 1)
    by (intros; rewrite length_app; simpl; lia).
  rewrite withRetryFrom_step.
  destruct (remote (length (calls w)) request) as [v1|e1] eqn:E1.
  { exists 1. cbn. rewrite Nat.add_0_r, E1.
    repeat split; try lia; try (by rewrite List.app_nil_r). }
  destruct (isRetriable e1) eqn:R1; cbn [andb Nat.ltb Nat.leb maxRetries].
  2: { exists 1. cbn. rewrite Nat.add_0_r, E1.
       repeat split; try lia; auto; try (by rewrite List.app_nil_r). }
  rewrite withRetryFrom_step. cbn [calls sleeps draws]. rewrite Hlen.
  destruct (remote (length (calls w) + 1) request) as [v2|e2] eqn:E2.
  { exists 2. cbn. rewrite Nat.add_0_r, E2.
    repeat split; try lia.
    - by rewrite <- List.app_assoc.
    - intros k Hk. assert (k = 1) as -> by lia. cbn. rewrite Nat.add_0_r. eauto. }
  destruct (isRetriable e2) eqn:R2; cbn [andb Nat.ltb Nat.leb maxRetries].
  2: { exists 2. cbn. rewrite Nat.add_0_r, E2.
       repeat split; try lia; auto.
       - by rewrite <- List.app_assoc.
       - intros k Hk. assert (k = 1) as -> by lia. cbn. rewrite Nat.add_0_r. eauto. }
  rewrite withRetryFrom_step. cbn [calls sleeps draws]. rewrite !Hlen.
  assert (Hk : ∀ k, 1 ≤ k < 3 →
            ∃ e, remote (length (calls w) + (k - 1)) request = Throw e
                 ∧ isRetriable e = true).
  { intros k Hk. assert (k = 1 ∨ k = 2) as [-> | ->] by lia; cbn;
      [rewrite Nat.add_0_r |]; eauto. }
  exists 3. replace (length (calls w) + 1 + 1) with (length (calls w) + 2) by lia.
  cbn [Nat.sub].
  destruct (remote (length (calls w) + 2) request) as [v3|e3] eqn:E3.
  - cbn. repeat split; try lia; try done.
    + by rewrite <- !List.app_assoc.
    + rewrite <- !List.app_assoc. cbn. by rewrite Nat.add_0_r, Nat.add_1_r.
  - rewrite andb_false_r. cbn. repeat split; try lia; auto.
    + by rewrite <- !List.app_assoc.
    + rewrite <- !List.app_assoc. cbn. by rewrite Nat.add_0_r, Nat.add_1_r.
Qed.

End Retry.

End RetryFacts.

Module FallbackFacts.
Import JsString Js GeminiService Spec StringFacts RetryFacts.
#[local] Arguments String.append : simpl nomatch.

Lemma countQuotes_app (s t : string) :
  countQuotes (s +:+ t) = countQuotes s + countQuotes t.
Proof. induction s as [|c s IH]; simpl; [done | rewrite IH; lia]. Qed.

Lemma beforeQuote_app (s t : string) :
  countQuotes s = 0 → beforeQuote (s +:+ String quote t) = s.
Proof.
  induction s as [|c s IH]; simpl; [done |].
  destruct (Ascii.eqb c quote); [done |]. intros H. by rewrite IH.
Qed.

Lemma endsWith_app (l p : string) : endsWith (l +:+ p) p = true.
Proof.
  induction l as [|c l IH]; simpl.
  - destruct p; simpl; [done |]. by rewrite Ascii.eqb_refl, String.eqb_refl.
  - rewrite IH. apply orb_true_r.
Qed.

Lemma lazyQuoted_Some (s c : string) :
  lazyQuoted s = Some c →
  ∃ post, s = c +:+ String quote post ∧ countQuotes c = 0.
Proof.
  revert c; induction s as [|a s IH]; intros c; simpl; [done |].
  destruct (Ascii.eqb a quote) eqn:E.
  - intros [= <-]. apply ascii_eqb_eq in E as ->. by exists s.
  - destruct (lineTerminatorAt (String a s)); [done |].
    destruct (lazyQuoted s) as [t|]; [| done].
    intros [= <-]. destruct (IH t eq_refl) as (post & -> & Ht).
    exists post. simpl. by rewrite E.
Qed.

Lemma extractCharacter_Some (prompt c : string) :
  extractCharacter prompt = Some c →
  ∃ pre post,
    prompt = pre +:+ outfitMarker +:+ c +:+ String quote post
    ∧ countQuotes c = 0.
Proof.
  induction prompt as [|a prompt IH].
  - done.
  - cbn [extractCharacter].
    destruct (stripPrefix outfitMarker (String a prompt)) as [rest|] eqn:E1.
    + cbn [mbind option_bind].
      destruct (lazyQuoted rest) as [t|] eqn:E2.
      * intros [= <-]. apply stripPrefix_Some in E1.
        apply lazyQuoted_Some in E2 as (post & -> & Ht).
        exists "", post. by rewrite E1.
      * intros (pre & post & -> & Hc)%IH. by exists (String a pre), post.
    + cbn [mbind option_bind].
      intros (pre & post & -> & Hc)%IH. by exists (String a pre), post.
Qed.

(** The fallback prompt for the label of a prompt is never that prompt:
    it has two double quotes, and its first is not preceded by the
    marker. *)
Lemma getFallbackPrompt_differs (prompt c : string) :
  extractCharacter prompt = Some c → getFallbackPrompt c ≠ prompt.
Proof.
  intros (pre & post & -> & Hc)%extractCharacter_Some Heq.
  pose proof (f_equal countQuotes Heq) as Hn.
  unfold getFallbackPrompt, outfitMarker, dq in Hn.
  rewrite !countQuotes_app in Hn. rewrite Hc in Hn.
  cbn in Hn.
  assert (Hpre : countQuotes pre = 0) by lia.
  assert (Hr : pre +:+ outfitMarker +:+ c +:+ String quote post =
               (pre +:+ "wearing the iconic PUBG outfit: ")
               +:+ String quote (c +:+ String quote post))
    by (by rewrite append_assoc).
  rewrite Hr in Heq. clear Hr.
  apply (f_equal beforeQuote) in Heq.
  rewrite beforeQuote_app in Heq by (by rewrite countQuotes_app, Hpre).
  unfold getFallbackPrompt, dq in Heq. simpl in Heq.
  pose proof (endsWith_app pre "wearing the iconic PUBG outfit: ") as He.
  rewrite <- Heq in He. by vm_compute in He.
Qed.

Section Attempts.
Variable remote : nat → Request → Completion GenerateContentResponse.
Variable random : nat → Q.

Lemma processGeminiResponse_world (response : GenerateContentResponse)
    (w : World) :
  (processGeminiResponse response w).2 = w.
Proof.
  unfold processGeminiResponse.
  by destruct (find hasInlineData (parts response) ≫= inlineData).
Qed.

(** A response without an image part makes [processGeminiResponse] throw
    the error that [generateCharacterImage] takes for a rejection. *)
Lemma processGeminiResponse_text_only (response : GenerateContentResponse)
    (w : World) :
  find hasInlineData (parts response) = None →
  ∃ rejection,
    processGeminiResponse response w = (Throw rejection, w)
    ∧ isErrorInstance rejection = true
    ∧ includes (err_message rejection) noImageMessage = true.
Proof.
  intros H. unfold processGeminiResponse. rewrite H. cbn [mbind option_bind].
  eexists. split; [done |]. split; [done |].
  cbn [err_message newError]. apply includes_app. exists "". eexists. reflexivity.
Qed.

Lemma attempt_world (mimeType data text : string) (w : World) :
  (attempt remote random mimeType data text w).2 =
  (withRetry random
     (generateContent remote (imageRequest mimeType data text)) w).2.
Proof.
  unfold attempt, bind.
  destruct (withRetry _ _ _) as [[response|e] w1]; [| done].
  apply processGeminiResponse_world.
Qed.

End Attempts.

End FallbackFacts.

(* ================================================================== *)
(** * Properties of the service *)
(* ================================================================== *)

Module GeminiServiceProps.
Import JsString Js GeminiService Spec StringFacts.
Import DataUrlFacts RetryFacts FallbackFacts.

Section Properties.
Variable remote : nat → Request → Completion GenerateContentResponse.
Variable random : nat → Q.

(** C10: for every string that does not match the data URL pattern,
    [generateCharacterImage] and [detectGender] both throw their
    invalid-format error at once: the world is left as it was, so no
    request is sent, no delay is waited for and no random number is
    drawn. *)
Theorem malformed_url_rejected_before_any_call
    (url prompt : string) (w : World) :
  ¬ DataUrlPattern url →
  generateCharacterImage remote random url prompt w =
    (Throw (newError
       "Invalid image data URL format. Expected 'data:image/...;base64,...'"),
     w)
  ∧ detectGender remote random url w =
    (Throw (newError "Invalid image data URL format for gender detection."),
     w).
Proof.
  intros Hbad%matchDataUrl_None.
  unfold generateCharacterImage, detectGender. by rewrite Hbad.
Qed.

(** The reply of [detectGender] is never [Female]: the test for [male]
    comes first and succeeds on every text that holds [female]. *)
Lemma detectGender_never_Female (url : string) (w : World) :
  (detectGender remote random url w).1 ≠ Return Female.
Proof.
  unfold detectGender. destruct (matchDataUrl url) as [[mimeType data]|]; [| done].
  unfold tryCatch, bind.
  destruct (withRetry _ _ _) as [[response|e] w1]; [| done].
  destruct (text response) as [responseText|]; [| done].
  destruct (includes _ "male") eqn:Hmale; [done |].
  destruct (includes _ "female") eqn:Hfemale; [| done].
  apply includes_female_male in Hfemale. congruence.
Qed.

(** C6, as amended: on every input that matches the data URL pattern,
    [detectGender] returns a value and throws nothing; when the call
    under [withRetry] fails, that value is [Unknown] and nothing more is
    done. *)
Theorem detectGender_swallows_transport_failures (url : string) (w : World) :
  DataUrlPattern url →
  ∃ mimeType data,
    matchDataUrl url = Some (mimeType, data)
    ∧ match withRetry random
              (generateContent remote (genderRequest mimeType data)) w with
      | (Throw _, w1) =>
          detectGender remote random url w = (Return Unknown, w1)
      | (Return _, w1) =>
          ∃ gender, detectGender remote random url w = (Return gender, w1)
      end.
Proof.
  intros [[mimeType data] Hm]%matchDataUrl_pattern.
  exists mimeType, data. split; [done |].
  unfold detectGender. rewrite Hm. unfold tryCatch, bind.
  destruct (withRetry _ _ _) as [[response|e] w1]; [| done].
  destruct (text response) as [responseText|]; [| by eexists].
  destruct (includes _ "male"); [| destruct (includes _ "female")];
    by eexists.
Qed.

(** C4: the remote call for the primary prompt succeeds, under
    [withRetry], with a response that has no image part.  If
    [extractCharacter] finds a non-empty label in the prompt, the prompt
    of the fallback differs from the primary prompt, and all that
    [generateCharacterImage] does next is one call of [withRetry] for
    the fallback request: between one and three requests, all of them
    the fallback request, whatever their answers, a text-only answer
    included; the result is the image of that attempt or an error.
    Otherwise (no label, or the empty label, which the test
    [!character] takes for none) the rejection error of
    [processGeminiResponse] is thrown as it is and no request
    follows. *)
Theorem rejected_primary_prompt_falls_back_once
    (url prompt mimeType data : string) (response : GenerateContentResponse)
    (w w1 : World) :
  matchDataUrl url = Some (mimeType, data) →
  withRetry random
    (generateContent remote (imageRequest mimeType data prompt)) w
  = (Return response, w1) →
  find hasInlineData (parts response) = None →
  let out := generateCharacterImage remote random url prompt w in
  match extractCharacter prompt with
  | Some (String a l) =>
      let character := String a l in
      let fallbackRequest :=
        imageRequest mimeType data (getFallbackPrompt character) in
      getFallbackPrompt character ≠ prompt
      ∧ out.2 = (withRetry random (generateContent remote fallbackRequest) w1).2
      ∧ (∃ n, 1 ≤ n ≤ 3 ∧ calls out.2 = calls w1 ++ replicate n fallbackRequest)
      ∧ match attempt remote random mimeType data
                (getFallbackPrompt character) w1 with
        | (Return image, _) => out.1 = Return image
        | (Throw _, _) => ∃ final, out.1 = Throw final
        end
  | _ =>
      out = processGeminiResponse response w1
      ∧ ∃ rejection, out = (Throw rejection, w1)
  end.
Proof.
  intros Hm Hretry Himg out.
  destruct (processGeminiResponse_text_only response w1 Himg)
    as (rejection & Hrej & Hinst & Hmsg).
  assert (Hout : out =
    match extractCharacter prompt with
    | Some (String a l) =>
        tryCatch (attempt remote random mimeType data
                    (getFallbackPrompt (String a l)))
          (λ fallbackError,
            throw (newError
              ("The AI model failed with both original and fallback prompts. Last error: "
               +:+ (if isErrorInstance fallbackError
                    then err_message fallbackError
                    else err_string fallbackError)))) w1
    | _ => (Throw rejection, w1)
    end).
  { subst out. unfold generateCharacterImage. rewrite Hm.
    unfold tryCatch at 1. unfold bind at 1. rewrite Hretry, Hrej.
    cbn zeta. rewrite Hinst, Hmsg.
    by destruct (extractCharacter prompt) as [[|a l]|]. }
  destruct (extractCharacter prompt) as [[|a l]|] eqn:Hc.
  - rewrite Hout, Hrej. eauto.
  - cbn zeta. split; [by apply getFallbackPrompt_differs |].
    assert (Hw : out.2 =
      (withRetry random (generateContent remote
         (imageRequest mimeType data (getFallbackPrompt (String a l)))) w1).2).
    { rewrite Hout, <- attempt_world. unfold tryCatch.
      by destruct (attempt _ _ _ _ _ _) as [[image|e] w2]. }
    split; [exact Hw |]. split.
    + rewrite Hw.
      destruct (withRetry_attempts remote random
                  (imageRequest mimeType data (getFallbackPrompt (String a l)))
                  w1) as (n & Hn & Hcalls & _).
      eauto.
    + rewrite Hout. unfold tryCatch.
      destruct (attempt _ _ _ _ _ _) as [[image|e] w2]; [done | by eexists].
  - rewrite Hout, Hrej. eauto.
Qed.

(** C5, as amended: when the primary attempt ends in a rejection, a
    label is found and the fallback attempt fails too, the call throws
    one new error whose message tells that both prompts failed and
    quotes the message of the fallback error, the last one, only. *)
Theorem fallback_failure_reports_last_error
    (url prompt mimeType data character : string)
    (primaryError fallbackError : JsError) (w w1 w2 : World) :
  matchDataUrl url = Some (mimeType, data) →
  attempt remote random mimeType data prompt w = (Throw primaryError, w1) →
  includes (caughtMessage primaryError) noImageMessage = true →
  extractCharacter prompt = Some character →
  character ≠ "" →
  attempt remote random mimeType data (getFallbackPrompt character) w1
  = (Throw fallbackError, w2) →
  generateCharacterImage remote random url prompt w =
    (Throw (newError
       ("The AI model failed with both original and fallback prompts. Last error: "
        +:+ (if isErrorInstance fallbackError
             then err_message fallbackError
             else err_string fallbackError))),
     w2).
Proof.
  intros Hm Hprimary Hmsg Hc Hne Hfallback.
  unfold generateCharacterImage. rewrite Hm.
  unfold tryCatch at 1. fold (attempt remote random mimeType data prompt).
  rewrite Hprimary. cbn zeta. fold (caughtMessage primaryError).
  rewrite Hmsg, Hc. destruct character as [|a l]; [done |].
  unfold tryCatch.
  fold (attempt remote random mimeType data (getFallbackPrompt (String a l))).
  by rewrite Hfallback.
Qed.

End Properties.

(** C3: a request under [withRetry] is sent [n] times, [1 <= n <= 3].
    Every attempt before the last failed with a retriable error, and was
    followed by a delay of [backoffDelay k] for the attempt [k] that
    failed; the last attempt succeeded, or failed with an error that is
    not retriable, or was the third.  A first failure that is not
    retriable gives one attempt and no delay, and the error is thrown
    on (as it is when it is an [Error]).  An error is retriable when
    its status is 500 or 503 or its message holds [internal] in any
    case.  The delay after the failed attempt [k] is
    [1000 * 2^(k-1)] plus [1000] times the number drawn, which lies in
    [0, 1000) for a draw in [0, 1). *)
Theorem withRetry_policy
    (remote : nat → Request → Completion GenerateContentResponse)
    (random : nat → Q) (request : Request) (w : World) :
  let out := withRetry random (generateContent remote request) w in
  let outcome k := remote (length (calls w) + (k - 1)) request in
  (∃ n, 1 ≤ n ≤ 3
     ∧ calls out.2 = calls w ++ replicate n request
     ∧ sleeps out.2 =
         sleeps w ++
         ((λ k, backoffDelay k (random (draws w + (k - 1)))) <$> seq 1 (n - 1))
     ∧ (∀ k, 1 ≤ k < n → ∃ e, outcome k = Throw e ∧ isRetriable e = true)
     ∧ match outcome n with
       | Return v => out.1 = Return v
       | Throw e => (isRetriable e = false ∨ n = 3) ∧ out.1 = Throw (rethrow e)
       end)
  ∧ (∀ e, outcome 1 = Throw e → isRetriable e = false →
       out = (Throw (rethrow e),
              {| calls := calls w ++ [request]; sleeps := sleeps w;
                 draws := draws w |}))
  ∧ (∀ e, isRetriable e = true ↔
          statusOf e = Some 500%Z ∨ statusOf e = Some 503%Z
          ∨ includes (toLowerCase (messageOf e)) "internal" = true)
  ∧ (∀ e, isErrorInstance e = true → rethrow e = e)
  ∧ (∀ k r, backoffDelay k r = (1000 * 2 ^ Z.of_nat (k - 1) + r * 1000)%Q
            ∧ ((0 <= r)%Q → (r < 1)%Q →
               (0 <= r * 1000)%Q ∧ (r * 1000 < 1000)%Q)).
Proof.
  intros out outcome. split; [apply withRetry_attempts |].
  split.
  { intros e He Hr. subst out outcome. unfold withRetry, maxRetries.
    rewrite withRetryFrom_step. cbn in He. rewrite Nat.add_0_r in He.
    by rewrite He, Hr. }
  split; [apply isRetriable_spec |].
  split; [intros e He; unfold rethrow; by rewrite He |].
  intros k r. split; [done | apply backoffDelay_jitter].
Qed.

(** The policy on two runs: two overloaded answers and then an image, at
    half the jitter; and a failure that is not retried. *)
Lemma withRetry_policy_witness :
  (let out := withRetry Sample.halfJitter
                (generateContent Sample.remoteFlaky Sample.flakyRequest)
                Sample.world0 in
   calls out.2 = replicate 3 Sample.flakyRequest
   ∧ sleeps out.2 = [backoffDelay 1 (1 # 2); backoffDelay 2 (1 # 2)]
   ∧ out.1 = Sample.imageReply "AAAA")
  ∧ withRetry Sample.halfJitter
      (generateContent (λ _ _, Throw Sample.quotaError) Sample.flakyRequest)
      Sample.world0
    = (Throw Sample.quotaError,
       {| calls := [Sample.flakyRequest]; sleeps := []; draws := 0 |})
  ∧ ((0 <= 1 # 2)%Q ∧ (1 # 2 < 1)%Q
     ∧ backoffDelay 2 (1 # 2) = (1000 * 2 ^ 1 + (1 # 2) * 1000)%Q
     ∧ (0 <= (1 # 2) * 1000)%Q ∧ ((1 # 2) * 1000 < 1000)%Q).
Proof.
  split; [by vm_compute |].
  split.
  - destruct (withRetry_policy (λ _ _, Throw Sample.quotaError)
                Sample.halfJitter Sample.flakyRequest Sample.world0)
      as (_ & Hfirst & _).
    exact (Hfirst Sample.quotaError eq_refl eq_refl).
  - destruct (withRetry_policy Sample.remoteFlaky Sample.halfJitter
                Sample.flakyRequest Sample.world0)
      as (_ & _ & _ & _ & Hdelay).
    destruct (Hdelay 2 (1 # 2)%Q) as [Heq Hrange].
    assert (H0 : (0 <= 1 # 2)%Q) by (by vm_compute).
    assert (H1 : (1 # 2 < 1)%Q) by (by vm_compute).
    destruct (Hrange H0 H1) as [Hlo Hhi].
    repeat split; assumption.
Defined.

(** The fallback on a run: the prompt of the component is refused, then
    the quota is exceeded. *)
Lemma rejected_primary_prompt_falls_back_once_witness :
  matchDataUrl Sample.photo = Some ("image/png", "iVBORw0KGgo=")
  ∧ withRetry Sample.noJitter
      (generateContent Sample.remoteRejectThenQuota
         (imageRequest "image/png" "iVBORw0KGgo=" Sample.markedPrompt))
      Sample.world0
    = (Return Sample.refusal, Sample.worldAfterPrimary)
  ∧ find hasInlineData (parts Sample.refusal) = None
  ∧ let out := generateCharacterImage Sample.remoteRejectThenQuota
                 Sample.noJitter Sample.photo Sample.markedPrompt
                 Sample.world0 in
    let fallbackRequest :=
      imageRequest "image/png" "iVBORw0KGgo="
        (getFallbackPrompt "Ghillie Suit") in
    getFallbackPrompt "Ghillie Suit" ≠ Sample.markedPrompt
    ∧ out.2 = (withRetry Sample.noJitter
                 (generateContent Sample.remoteRejectThenQuota fallbackRequest)
                 Sample.worldAfterPrimary).2
    ∧ (∃ n, 1 ≤ n ≤ 3
            ∧ calls out.2 =
              calls Sample.worldAfterPrimary ++ replicate n fallbackRequest)
    ∧ ∃ final, out.1 = Throw final.
Proof.
  assert (H1 : matchDataUrl Sample.photo = Some ("image/png", "iVBORw0KGgo="))
    by (by vm_compute).
  assert (H2 : withRetry Sample.noJitter
      (generateContent Sample.remoteRejectThenQuota
         (imageRequest "image/png" "iVBORw0KGgo=" Sample.markedPrompt))
      Sample.world0
    = (Return Sample.refusal, Sample.worldAfterPrimary)) by (by vm_compute).
  assert (H3 : find hasInlineData (parts Sample.refusal) = None)
    by (by vm_compute).
  repeat (split; [assumption |]).
  exact (rejected_primary_prompt_falls_back_once
           Sample.remoteRejectThenQuota Sample.noJitter
           Sample.photo Sample.markedPrompt "image/png" "iVBORw0KGgo="
           Sample.refusal Sample.world0 Sample.worldAfterPrimary H1 H2 H3).
Defined.

(** The combined error of that run. *)
Lemma fallback_failure_reports_last_error_witness :
  generateCharacterImage Sample.remoteRejectThenQuota Sample.noJitter
    Sample.photo Sample.markedPrompt Sample.world0 =
  (Throw (newError
     ("The AI model failed with both original and fallback prompts. Last error: "
      +:+ "Quota exceeded")),
   Sample.worldAfterFallback).
Proof.
  apply (fallback_failure_reports_last_error
           Sample.remoteRejectThenQuota Sample.noJitter
           Sample.photo Sample.markedPrompt "image/png" "iVBORw0KGgo="
           "Ghillie Suit" Sample.refusalError Sample.quotaError
           Sample.world0 Sample.worldAfterPrimary Sample.worldAfterFallback);
    by vm_compute.
Defined.

(** C5, as stated, fails: the primary prompt is rejected, the fallback
    request fails with [quotaError], and the message of the error thrown
    does not hold the message of the primary error. *)
Lemma combined_failure_omits_primary_message :
  attempt Sample.remoteRejectThenQuota Sample.noJitter
    "image/png" "iVBORw0KGgo=" Sample.markedPrompt Sample.world0
  = (Throw Sample.refusalError, Sample.worldAfterPrimary)
  ∧ attempt Sample.remoteRejectThenQuota Sample.noJitter
      "image/png" "iVBORw0KGgo=" (getFallbackPrompt "Ghillie Suit")
      Sample.worldAfterPrimary
    = (Throw Sample.quotaError, Sample.worldAfterFallback)
  ∧ ∃ final,
      generateCharacterImage Sample.remoteRejectThenQuota Sample.noJitter
        Sample.photo Sample.markedPrompt Sample.world0
      = (Throw final, Sample.worldAfterFallback)
      ∧ includes (err_message final) (err_message Sample.quotaError) = true
      ∧ includes (err_message final) (err_message Sample.refusalError) = false.
Proof.
  split; [by vm_compute |]. split; [by vm_compute |].
  eexists. split; [by vm_compute |]. split; by vm_compute.
Qed.

(** On the prompts of the component, [extractCharacter] finds the
    outfit. *)
Lemma extractCharacter_generatePrompt :
  Forall (λ item, extractCharacter (Prompt.generatePrompt item (Some Male))
                  = Some (App.character item))
    SampleApp.fourItems.
Proof.
  repeat (apply Forall_cons_2; [by vm_compute |]). apply Forall_nil_2.
Qed.

(** C2: the model answers [Female] and [detectGender] returns [Male];
    whatever the answer, it never returns [Female]. *)
Theorem detectGender_female_reply_yields_Male :
  (detectGender Sample.remoteFemale Sample.noJitter Sample.photo Sample.world0).1
    = Return Male
  ∧ ∀ remote random url w,
      (detectGender remote random url w).1 ≠ Return Female.
Proof. split; [by vm_compute | apply detectGender_never_Female]. Qed.

(** C6, as stated, fails: on the data URL of an SVG image, whose
    subtype [svg+xml] is no run of word characters, [detectGender]
    throws to its caller. *)
Lemma detectGender_throws_on_malformed_url :
  detectGender Sample.remoteFemale Sample.noJitter
    "data:image/svg+xml;base64,PHN2Zy8+" Sample.world0
  = (Throw (newError "Invalid image data URL format for gender detection."),
     Sample.world0).
Proof. by vm_compute. Qed.

(** A file name is no data URL. *)
Lemma malformed_url_rejected_before_any_call_witness :
  ¬ DataUrlPattern "photo.png"
  ∧ generateCharacterImage Sample.remoteFemale Sample.noJitter
      "photo.png" Sample.markedPrompt Sample.world0 =
    (Throw (newError
       "Invalid image data URL format. Expected 'data:image/...;base64,...'"),
     Sample.world0)
  ∧ detectGender Sample.remoteFemale Sample.noJitter "photo.png" Sample.world0 =
    (Throw (newError "Invalid image data URL format for gender detection."),
     Sample.world0).
Proof.
  assert (H : ¬ DataUrlPattern "photo.png").
  { rewrite matchDataUrl_pattern. vm_compute. intros [? [=]]. }
  split; [exact H |].
  exact (malformed_url_rejected_before_any_call
           Sample.remoteFemale Sample.noJitter "photo.png"
           Sample.markedPrompt Sample.world0 H).
Defined.

(** A photo, and a model that cannot be reached. *)
Lemma detectGender_swallows_transport_failures_witness :
  DataUrlPattern Sample.photo
  ∧ ∃ mimeType data,
    matchDataUrl Sample.photo = Some (mimeType, data)
    ∧ match withRetry Sample.noJitter
              (generateContent (λ _ _, Throw Sample.quotaError)
                 (genderRequest mimeType data)) Sample.world0 with
      | (Throw _, w1) =>
          detectGender (λ _ _, Throw Sample.quotaError) Sample.noJitter
            Sample.photo Sample.world0 = (Return Unknown, w1)
      | (Return _, w1) =>
          ∃ gender,
            detectGender (λ _ _, Throw Sample.quotaError) Sample.noJitter
              Sample.photo Sample.world0 = (Return gender, w1)
      end.
Proof.
  assert (H : DataUrlPattern Sample.photo).
  { rewrite matchDataUrl_pattern. vm_compute. eauto. }
  split; [exact H |].
  exact (detectGender_swallows_transport_failures
           (λ _ _, Throw Sample.quotaError) Sample.noJitter
           Sample.photo Sample.world0 H).
Defined.

End GeminiServiceProps.

(* ================================================================== *)
(** * Facts about the compositor and the worker pool *)
(* ================================================================== *)

Module AlbumFacts.
Import Js AlbumUtils.

Lemma paintedCardsFrom_drawCard (index : nat) (character : string)
    (img : HTMLImageElement) (r : Q) (l : list CanvasOp) :
  paintedCardsFrom None (drawCard index character img r ++ l)
  = cardAt index character :: paintedCardsFrom None l.
Proof.
  unfold drawCard. by destruct (gtb _ _).
Qed.

Lemma paintedCardsFrom_cards (idx : nat → nat) (rnd : nat → Q)
    (l : list (string * HTMLImageElement)) :
  paintedCardsFrom None
    (concat (imap (λ k '(character, img),
                     drawCard (idx k) character img (rnd k)) l))
  = imap (λ k character, cardAt (idx k) character) l.*1.
Proof.
  revert idx rnd; induction l as [|[character img] l IH]; intros idx rnd.
  - done.
  - csimpl. rewrite paintedCardsFrom_drawCard. f_equal.
    apply (IH (idx ∘ S) (rnd ∘ S)).
Qed.

Lemma imap_reverse_index {A B} (f : nat → A → B) (l : list A) (n : nat) :
  n = length l →
  imap (λ k, f (n - 1 - k)) (reverse l) = reverse (imap f l).
Proof.
  intros ->. apply list_eq. intros k.
  rewrite list_lookup_imap.
  destruct (decide (k < length l)) as [Hk | Hk].
  - rewrite !reverse_lookup by (by rewrite ?length_imap).
    rewrite length_imap, list_lookup_imap.
    by replace (length l - 1 - k) with (length l - S k) by lia.
  - rewrite !lookup_ge_None_2; [done | |];
      rewrite length_reverse, ?length_imap; lia.
Qed.

Section Loading.
Variable decode : string → option HTMLImageElement.

Lemma loadAll_length (urls : list string) (imgs : list HTMLImageElement) :
  loadAll decode urls = Return imgs → length imgs = length urls.
Proof.
  revert imgs; induction urls as [|url urls IH]; intros imgs; simpl.
  - by intros [= <-].
  - destruct (loadImage decode url); [| done].
    destruct (loadAll decode urls) as [imgs'|]; [| done].
    intros [= <-]. simpl. f_equal. by apply IH.
Qed.

Lemma loadAll_total (urls : list string) :
  Forall (λ url, is_Some (decode url)) urls →
  ∃ imgs, loadAll decode urls = Return imgs.
Proof.
  induction 1 as [|url urls [img Himg] _ [imgs IH]]; simpl; [by eexists |].
  unfold loadImage. rewrite Himg, IH. by eexists.
Qed.

End Loading.

(** The cards a page shows, for a page that was composed. *)
Lemma createAlbumPage_cards (decode : string → option HTMLImageElement)
    (random : nat → Q) (imageData : list (string * string))
    (page : AlbumPage) :
  createAlbumPage true decode random imageData = Return page →
  width page = canvasWidth ∧ height page = canvasHeight
  ∧ paintedCards page = reverse (imap cardAt imageData.*1).
Proof.
  unfold createAlbumPage. simpl.
  destruct (loadAll decode imageData.*2) as [imgs|] eqn:Hload; [| done].
  intros [= <-]. split; [done |]. split; [done |].
  apply loadAll_length in Hload. rewrite !length_fmap in Hload.
  unfold paintedCards. cbn [ops paintedCardsFrom].
  rewrite (paintedCardsFrom_cards
             (λ k, length (zip imageData.*1 imgs) - 1 - k) random).
  rewrite fmap_reverse, fst_zip by (rewrite length_fmap; lia).
  rewrite length_zip, length_fmap, Hload, Nat.min_id.
  apply imap_reverse_index. by rewrite length_fmap.
Qed.

Lemma paintedCardsFrom_caption (l : list CanvasOp) (origin : option (Q * Q))
    (card : PaintedCard) :
  card ∈ paintedCardsFrom origin l →
  ∃ x y, FillText (caption card) x y ∈ l.
Proof.
  revert origin; induction l as [|op l IH]; intros origin; simpl.
  - by intros ?%elem_of_nil.
  - destruct op; try (intros (x' & y' & H)%IH; exists x', y'; by right).
    destruct origin as [[x0 y0]|].
    + intros [-> | (x' & y' & H)%IH]%elem_of_cons.
      * eexists _, _. by left.
      * exists x', y'. by right.
    + intros (x' & y' & H)%IH. exists x', y'. by right.
Qed.

End AlbumFacts.

Module PoolFacts.
Import Js App.

Section Pool.
Variable items : list GenerationItem.

Lemma awaited_insert (l : list Worker) (w : nat) (old new : Worker) :
  l !! w = Some old →
  awaited old ++ concat (awaited <$> <[w := new]> l)
  ≡ₚ awaited new ++ concat (awaited <$> l).
Proof.
  revert w; induction l as [|wk l IH]; intros [|w] H; simplify_eq/=.
  - solve_Permutation.
  - rewrite !(Permutation_app_swap_app _ (awaited wk)). f_equiv. by apply IH.
Qed.

Lemma workerFuel_insert (l : list Worker) (w : nat) (old new : Worker) :
  l !! w = Some old →
  workerFuel old + sum_list (workerFuel <$> <[w := new]> l)
  = workerFuel new + sum_list (workerFuel <$> l).
Proof.
  revert w; induction l as [|wk l IH]; intros [|w] H; simplify_eq/=.
  - lia.
  - specialize (IH _ H). lia.
Qed.

Lemma awaited_length (l : list Worker) :
  length (concat (awaited <$> l)) ≤ length l.
Proof.
  induction l as [|wk l IH]; csimpl; [done |].
  rewrite length_app. destruct wk; simpl; lia.
Qed.

Lemma settledImage_terminal (outcome : Completion string) :
  terminal (settledImage outcome).
Proof. destruct outcome; [by left | by right]. Qed.

Lemma lookup_insert_Returned (l : list Worker) (w j : nat) (new : Worker) :
  new ≠ Returned →
  <[w := new]> l !! j = Some Returned → l !! j = Some Returned.
Proof.
  intros Hne H.
  apply list_lookup_insert_Some in H as [(_ & Heq & _) | [_ H]];
    [by destruct Hne | done].
Qed.

Lemma step_fuel (r r' : Run) : step r r' → S (fuel r') = fuel r.
Proof.
  destruct 1 as [r w item rest Hw Hq | r w Hw Hq | r w item outcome Hw
                | r Hall Hj]; unfold fuel; simpl.
  - pose proof (workerFuel_insert _ _ _ (Awaiting item) Hw) as H.
    rewrite Hq. simpl in *. lia.
  - pose proof (workerFuel_insert _ _ _ Returned Hw) as H.
    simpl in *. lia.
  - pose proof (workerFuel_insert _ _ _ AtLoopTest Hw) as H.
    simpl in *. lia.
  - rewrite Hj. lia.
Qed.

Lemma step_inv (r r' : Run) : Inv items r → step r r' → Inv items r'.
Proof.
  intros [Hlen Hfifo Honce Hdr Hterm Hjoin] Hstep.
  assert (Hunjoined : ∀ w wk, workers r !! w = Some wk → wk ≠ Returned →
                      joined r = false).
  { intros w wk Hw Hne. destruct (joined r) eqn:Hj; [| done].
    destruct (Hjoin eq_refl) as [Hall _].
    rewrite Forall_lookup in Hall. by specialize (Hall _ _ Hw). }
  destruct Hstep as [r w item rest Hw Hq | r w Hw Hq | r w item outcome Hw
                    | r Hall Hj]; constructor; simpl.
  - by rewrite length_insert.
  - by rewrite <- Hfifo, Hq, <- List.app_assoc.
  - pose proof (awaited_insert _ _ _ (Awaiting item) Hw) as H. simpl in H.
    rewrite Honce, H. solve_Permutation.
  - intros j Hj%lookup_insert_Returned; [| done].
    specialize (Hdr _ Hj). congruence.
  - done.
  - intros Hj. by rewrite (Hunjoined _ _ Hw) in Hj.
  - by rewrite length_insert.
  - done.
  - pose proof (awaited_insert _ _ _ Returned Hw) as H. simpl in H.
    by rewrite Honce, H.
  - done.
  - done.
  - intros Hj. by rewrite (Hunjoined _ _ Hw) in Hj.
  - by rewrite length_insert.
  - done.
  - pose proof (awaited_insert _ _ _ AtLoopTest Hw) as H. simpl in H.
    rewrite Honce, <- H. solve_Permutation.
  - intros j Hj%lookup_insert_Returned; [| done]. eauto.
  - intros item' [Hin | ->%list_elem_of_singleton]%elem_of_app.
    + destruct (decide (character item = character item')) as [-> | Hne].
      * rewrite lookup_insert_eq. eauto using settledImage_terminal.
      * rewrite lookup_insert_ne by done. eauto.
    + rewrite lookup_insert_eq. eauto using settledImage_terminal.
  - intros Hj. by rewrite (Hunjoined _ _ Hw) in Hj.
  - done.
  - done.
  - done.
  - done.
  - done.
  - done.
Qed.

Lemma nsteps_inv (n : nat) (r0 r : Run) :
  Inv items r0 → nsteps step n r0 r → Inv items r ∧ n + fuel r = fuel r0.
Proof.
  intros H0 Hn. induction Hn as [r | n r0 r1 r Hstep Hn IH]; [done |].
  destruct (IH (step_inv _ _ H0 Hstep)) as [Hinv Hfuel].
  split; [done |]. apply step_fuel in Hstep. lia.
Qed.

Lemma inv_inFlight (r : Run) : Inv items r → inFlight r ≤ concurrencyLimit.
Proof.
  intros [Hlen _ Honce _ _ _]. unfold inFlight.
  apply Permutation_length in Honce. rewrite length_app in Honce.
  pose proof (awaited_length (workers r)). lia.
Qed.

(** A run that cannot take a turn has all its workers returned and has
    been joined. *)
Lemma nf_finished (r : Run) :
  nf step r → Forall (λ wk, wk = Returned) (workers r) ∧ joined r = true.
Proof.
  intros Hnf.
  assert (Hall : Forall (λ wk, wk = Returned) (workers r)).
  { apply Forall_lookup. intros w wk Hw. destruct wk as [|item|]; [| | done].
    - destruct Hnf. destruct (itemsQueue r) as [|item rest] eqn:Hq.
      + eexists. by eapply step_return.
      + eexists. by eapply step_shift.
    - destruct Hnf. eexists. by eapply (step_settle _ _ _ (Return "")). }
  split; [done |]. destruct (joined r) eqn:Hj; [done |].
  destruct Hnf. eexists. by eapply step_join.
Qed.

Lemma inv_finished (r : Run) :
  Inv items r → nf step r →
  started r = items
  ∧ settled r ≡ₚ items
  ∧ (∀ item, item ∈ items →
       ∃ img, generatedImages (react r) !! character item = Some img
              ∧ terminal img)
  ∧ isLoading (react r) = false ∧ appState (react r) = results_shown.
Proof.
  intros [Hlen Hfifo Honce Hdr Hterm Hjoin] [Hall Hj]%nf_finished.
  assert (Hq : itemsQueue r = []).
  { destruct (workers r) as [|wk l] eqn:Hw; [done |].
    apply (Hdr 0). simpl. f_equal.
    by apply Forall_cons in Hall as [-> _]. }
  assert (Hnone : concat (awaited <$> workers r) = []).
  { clear -Hall. induction Hall as [|wk l -> _ IH]; [done |]. by csimpl. }
  rewrite Hq, List.app_nil_r in Hfifo. rewrite Hnone, List.app_nil_r in Honce.
  rewrite Hfifo in Honce. split; [done |]. split; [done |].
  split; [| by destruct (Hjoin Hj) as (_ & ? & ?)].
  intros item Hin. apply Hterm. by rewrite <- Honce.
Qed.

End Pool.

Lemma handleGenerateClick_inv (s : State) (run0 : Run) :
  handleGenerateClick s = Some run0 →
  App.Inv (generationItems s) run0
  ∧ fuel run0 = 2 * length (generationItems s) + concurrencyLimit + 1.
Proof.
  unfold handleGenerateClick.
  destruct (_ || _); [done |]. intros [= <-]. split; [| done].
  constructor; simpl; try done.
  - intros [|[|w]]; done.
  - intros item []%elem_of_nil.
Qed.

Lemma perform_step (t : Turn) (r r' : Run) : perform t r = Some r' → step r r'.
Proof.
  destruct t as [w | w | w outcome |]; simpl.
  - destruct (workers r !! w) as [[| |]|] eqn:Hw; try done.
    destruct (itemsQueue r) as [|item rest] eqn:Hq; [done |].
    intros [= <-]. by apply step_shift.
  - destruct (workers r !! w) as [[| |]|] eqn:Hw; try done.
    destruct (itemsQueue r) as [|item rest] eqn:Hq; [| done].
    intros [= <-]. rewrite <- Hq. by apply step_return.
  - destruct (workers r !! w) as [[|item|]|] eqn:Hw; try done.
    intros [= <-]. by apply step_settle.
  - destruct (forallb isReturned (workers r)) eqn:Hall; [| done].
    destruct (joined r) eqn:Hj; [done |]. intros [= <-].
    apply step_join; [| done].
    apply Forall_forall. intros wk Hin.
    rewrite forallb_forall in Hall.
    apply list_elem_of_In, Hall in Hin. by destruct wk.
Qed.

Lemma performAll_nsteps (ts : list Turn) (r r' : Run) :
  performAll ts r = Some r' → nsteps step (length ts) r r'.
Proof.
  revert r; induction ts as [|t ts IH]; intros r; simpl.
  - intros [= <-]. constructor.
  - destruct (perform t r) as [r1|] eqn:Ht; [| done].
    intros H. eapply nsteps_l; eauto using perform_step.
Qed.

Lemma workers_cases (l : list Worker) :
  Forall (λ wk, wk = Returned) l
  ∨ ∃ w wk, l !! w = Some wk ∧ wk ≠ Returned.
Proof.
  induction l as [|wk l [IH | (w & wk' & Hw & Hne)]].
  - by left.
  - destruct wk as [|item|].
    + right. by exists 0, AtLoopTest.
    + right. by exists 0, (Awaiting item).
    + left. by constructor.
  - right. by exists (S w), wk'.
Qed.

(** A run takes a turn, or it has none left. *)
Lemma step_or_finished (items : list GenerationItem) (r : Run) :
  Inv items r → (∃ r', step r r') ∨ fuel r = 0.
Proof.
  intros Hinv. destruct (workers_cases (workers r))
    as [Hall | (w & wk & Hw & Hne)].
  - destruct (joined r) eqn:Hj.
    + right. unfold fuel. rewrite Hj.
      assert (Hq : itemsQueue r = []).
      { destruct (workers r) as [|wk l] eqn:Hws.
        - by destruct Hinv as [Hlen _ _ _ _ _]; rewrite Hws in Hlen.
        - apply (inv_drained _ _ Hinv 0). rewrite Hws. simpl. f_equal.
          by apply Forall_cons in Hall as [-> _]. }
      rewrite Hq.
      assert (Hsum : sum_list (workerFuel <$> workers r) = 0).
      { clear -Hall. induction Hall as [|wk l -> _ IH]; [done |]. by csimpl. }
      rewrite Hsum. done.
    + left. eexists. by apply step_join.
  - left. destruct wk as [|item|]; [| | done].
    + destruct (itemsQueue r) as [|item rest] eqn:Hq.
      * eexists. by eapply step_return.
      * eexists. by eapply step_shift.
    + eexists. by eapply (step_settle _ _ _ (Return "")).
Qed.

(** Every run can be carried to its end, in [fuel r] turns. *)
Lemma run_completes (items : list GenerationItem) (r : Run) :
  Inv items r → ∃ final, nsteps step (fuel r) r final ∧ nf step final.
Proof.
  remember (fuel r) as k eqn:Hk. revert r Hk.
  induction k as [|k IH]; intros r Hk Hinv.
  - exists r. split; [constructor |].
    intros [r' Hstep%step_fuel]. lia.
  - destruct (step_or_finished items r Hinv) as [[r1 Hstep] | H0]; [| lia].
    pose proof (step_fuel _ _ Hstep) as Hf.
    destruct (IH r1 ltac:(lia) (step_inv _ _ _ Hinv Hstep))
      as (final & Hn & Hnf).
    exists final. split; [by eapply nsteps_l | done].
Qed.

End PoolFacts.

(* ================================================================== *)
(** * Properties of the compositor and of the component *)
(* ================================================================== *)

Module AlbumProps.
Import Js AlbumUtils AlbumFacts.

(** C8: for four entries whose images all decode, with a 2D context
    at hand, [createAlbumPage] returns a page of 2480 by 3508 on which
    four cards are painted.  The label of the entry of index [i] is
    written, as the caption of a card centred on the grid cell of row
    [i / 2] and column [i mod 2], a cell of the 3 by 2 grid; two
    entries have different cells, and their cards different centres. *)
Theorem album_of_four_cards (decode : string → option HTMLImageElement)
    (random : nat → Q) (imageData : list (string * string)) :
  length imageData = 4 →
  Forall (λ url, is_Some (decode url)) imageData.*2 →
  ∃ page,
    createAlbumPage true decode random imageData = Return page
    ∧ width page = 2480%Z ∧ height page = 3508%Z
    ∧ length (paintedCards page) = 4
    ∧ (∀ i label, imageData.*1 !! i = Some label →
         cardAt i label ∈ paintedCards page
         ∧ (∃ x y, FillText label x y ∈ ops page)
         ∧ (i / 2 < rows ∧ i mod 2 < cols)
         ∧ (centreX (cardAt i label) == cellLeft (i mod 2) + cellWidth / 2)%Q
         ∧ (centreY (cardAt i label) == cellTop (i / 2) + cellHeight / 2)%Q)
    ∧ (∀ i j li lj,
         imageData.*1 !! i = Some li → imageData.*1 !! j = Some lj → i ≠ j →
         (i / 2, i mod 2) ≠ (j / 2, j mod 2)
         ∧ ¬ ((centreX (cardAt i li) == centreX (cardAt j lj))%Q
              ∧ (centreY (cardAt i li) == centreY (cardAt j lj))%Q)).
Proof.
  intros Hlen Hdecode.
  assert (Hpage : ∃ page, createAlbumPage true decode random imageData
                          = Return page).
  { destruct (loadAll_total decode _ Hdecode) as [imgs Himgs].
    unfold createAlbumPage. rewrite Himgs. by eexists. }
  destruct Hpage as [page Hpage]. exists page. split; [done |].
  destruct (createAlbumPage_cards _ _ _ _ Hpage) as (Hw & Hh & Hcards).
  split; [done |]. split; [done |].
  split; [by rewrite Hcards, length_reverse, length_imap, length_fmap |].
  assert (Hrange : ∀ i label, imageData.*1 !! i = Some label → i < 4).
  { intros i label Hi%lookup_lt_Some. by rewrite length_fmap, Hlen in Hi. }
  split.
  - intros i label Hi.
    assert (Hin : cardAt i label ∈ paintedCards page).
    { rewrite Hcards, elem_of_reverse. apply list_elem_of_lookup.
      exists i. by rewrite list_lookup_imap, Hi. }
    split; [done |].
    split; [by apply paintedCardsFrom_caption in Hin |].
    pose proof (Hrange _ _ Hi) as Hlt.
    destruct i as [|[|[|[|i]]]]; try lia;
      (split; [unfold rows, cols; simpl; lia |]; split; by vm_compute).
  - intros i j li lj Hi%Hrange Hj%Hrange Hne.
    destruct i as [|[|[|[|i]]]]; try lia;
      destruct j as [|[|[|[|j]]]]; try lia; try done;
      (split; [done |]; intros [H1 H2]; vm_compute in H1, H2; done).
Qed.

(** C9: the cards of a page are painted from the last entry to the
    first, and the card of the entry of index [i] is painted at the
    position computed from [i]: the [k]-th card painted is that of the
    entry of index [length - 1 - k], in the cell of that index. *)
Theorem cards_drawn_last_to_first (decode : string → option HTMLImageElement)
    (random : nat → Q) (imageData : list (string * string))
    (page : AlbumPage) :
  createAlbumPage true decode random imageData = Return page →
  paintedCards page = reverse (imap cardAt imageData.*1)
  ∧ ∀ k, k < length imageData →
      ∃ label,
        imageData.*1 !! (length imageData - 1 - k) = Some label
        ∧ paintedCards page !! k
          = Some (cardAt (length imageData - 1 - k) label).
Proof.
  intros (_ & _ & Hcards)%createAlbumPage_cards. split; [done |].
  intros k Hk.
  destruct (lookup_lt_is_Some_2 imageData.*1 (length imageData - 1 - k))
    as [label Hlabel]; [rewrite length_fmap; lia |].
  exists label. split; [done |].
  rewrite Hcards, reverse_lookup by (rewrite length_imap, length_fmap; lia).
  rewrite length_imap, length_fmap, list_lookup_imap.
  replace (length imageData - S k) with (length imageData - 1 - k) by lia.
  by rewrite Hlabel.
Qed.

(** The album of four images of four shapes. *)
Lemma album_of_four_cards_witness :
  length SampleApp.fourPhotos = 4
  ∧ Forall (λ url, is_Some (SampleApp.decodeFour url)) SampleApp.fourPhotos.*2
  ∧ ∃ page,
    createAlbumPage true SampleApp.decodeFour Sample.halfJitter
      SampleApp.fourPhotos = Return page
    ∧ width page = 2480%Z ∧ height page = 3508%Z
    ∧ caption <$> paintedCards page
      = ["Valkyrie Set"; "PMC Uniform"; "Ranger Set"; "Ghillie Suit"].
Proof.
  assert (H1 : length SampleApp.fourPhotos = 4) by done.
  assert (H2 : Forall (λ url, is_Some (SampleApp.decodeFour url))
                 SampleApp.fourPhotos.*2).
  { simpl. repeat (apply Forall_cons_2; [by eexists |]). apply Forall_nil_2. }
  split; [done |]. split; [done |].
  destruct (album_of_four_cards SampleApp.decodeFour Sample.halfJitter
              SampleApp.fourPhotos H1 H2)
    as (page & Hpage & Hw & Hh & _).
  exists page. split; [done |]. split; [done |]. split; [done |].
  vm_compute in Hpage. injection Hpage as <-. by vm_compute.
Defined.

(** The four cards of that album, in the order they are painted. *)
Lemma cards_drawn_last_to_first_witness :
  ∃ page,
    createAlbumPage true SampleApp.decodeFour Sample.halfJitter
      SampleApp.fourPhotos = Return page
    ∧ paintedCards page
      = [cardAt 3 "Valkyrie Set"; cardAt 2 "PMC Uniform";
         cardAt 1 "Ranger Set"; cardAt 0 "Ghillie Suit"].
Proof.
  eexists. split; [reflexivity |].
  by destruct (cards_drawn_last_to_first SampleApp.decodeFour
                 Sample.halfJitter SampleApp.fourPhotos _ eq_refl) as [-> _].
Defined.

End AlbumProps.

Module AppProps.
Import Js App PoolFacts.

(** A run that has used up its turns cannot take another. *)
Lemma fuel_0_nf (r : Run) : fuel r = 0 → nf step r.
Proof. intros H0 [r' Hstep%step_fuel]. lia. Qed.

(** C1: a run of [handleGenerateClick] over four items, followed for
    any number [n] of turns of the event loop to a run [r].
    - At most two tasks are in flight.
    - The tasks started so far, in the order they were started, followed
      by the queue, are the items in their input order: tasks are taken
      first in, first out, each once.
    - Every started task is settled once or awaited by a worker.
    - [n] turns have been taken and [fuel r] are left, 11 in all: no run
      is longer than 11 turns, and [r] can be carried on, in [fuel r]
      turns, to a run with no turn left.
    - When no turn is left to take, all four tasks were started in input
      order, the settled tasks are the four items, each of them has the
      status [Done] or [Error], and the handler has resumed.
    The outcomes of the generations are arbitrary, failures included:
    a failed task puts its worker back at its loop test as a
    successful one does. *)
Theorem worker_pool_bounded_fifo_complete (s : State) (run0 : Run) :
  length (generationItems s) = 4 →
  handleGenerateClick s = Some run0 →
  ∀ n r, nsteps step n run0 r →
    inFlight r ≤ 2
    ∧ started r ++ itemsQueue r = generationItems s
    ∧ started r ≡ₚ settled r ++ concat (awaited <$> workers r)
    ∧ n + fuel r = 11
    ∧ (∃ final, nsteps step (fuel r) r final ∧ nf step final)
    ∧ (nf step r →
         started r = generationItems s
         ∧ settled r ≡ₚ generationItems s
         ∧ (∀ item, item ∈ generationItems s →
              ∃ img, generatedImages (react r) !! character item = Some img
                     ∧ terminal img)
         ∧ isLoading (react r) = false
         ∧ appState (react r) = results_shown).
Proof.
  intros Hlen [Hinv0 Hfuel0]%handleGenerateClick_inv n r Hn.
  destruct (nsteps_inv _ _ _ _ Hinv0 Hn) as [Hinv Hfuel].
  split; [by apply (inv_inFlight _ _ Hinv) |].
  split; [by destruct Hinv |].
  split; [by destruct Hinv |].
  split; [rewrite Hfuel, Hfuel0, Hlen; done |].
  split; [by apply (run_completes _ _ Hinv) |].
  by apply inv_finished.
Qed.

(** A whole run of the pool in which the first generation fails: the
    three others are carried out all the same. *)
Lemma worker_pool_bounded_fifo_complete_witness :
  ∃ run0 final,
    length (generationItems SampleApp.lobby) = 4
    ∧ handleGenerateClick SampleApp.lobby = Some run0
    ∧ nsteps step 11 run0 final
    ∧ nf step final
    ∧ inFlight final ≤ 2
    ∧ started final = generationItems SampleApp.lobby
    ∧ settled final ≡ₚ generationItems SampleApp.lobby
    ∧ status <$> generatedImages (react final) !! "Ghillie Suit" = Some Error
    ∧ (∀ item, item ∈ generationItems SampleApp.lobby →
         ∃ img, generatedImages (react final) !! character item = Some img
                ∧ terminal img).
Proof.
  destruct (handleGenerateClick SampleApp.lobby) as [run0|] eqn:H0;
    [| by vm_compute in H0].
  destruct (performAll SampleApp.schedule run0) as [final|] eqn:Hfinal.
  2: { vm_compute in H0. injection H0 as <-. by vm_compute in Hfinal. }
  exists run0, final.
  assert (Hn : nsteps step 11 run0 final)
    by apply (performAll_nsteps SampleApp.schedule _ _ Hfinal).
  assert (Hnf : nf step final).
  { apply fuel_0_nf. vm_compute in H0. injection H0 as <-.
    vm_compute in Hfinal. injection Hfinal as <-. by vm_compute. }
  assert (Herr : status <$> generatedImages (react final) !! "Ghillie Suit"
                 = Some Error).
  { vm_compute in H0. injection H0 as <-.
    vm_compute in Hfinal. injection Hfinal as <-. by vm_compute. }
  destruct (worker_pool_bounded_fifo_complete SampleApp.lobby run0
              eq_refl H0 11 final Hn)
    as (Hflight & _ & _ & _ & _ & Hdone).
  destruct (Hdone Hnf) as (Hstarted & Hsettled & Hterminal & _).
  done.
Defined.

Section Regeneration.
Variable generatePrompt : GenerationItem → option Gender → string.


(** The guard is what stops the call: for a card that is not pending,
    with a photo uploaded and the item in the list, the handler sets the
    card to pending and calls [generateCharacterImage] once. *)
Lemma regenerate_settled_calls_once (s : State) (item : GenerationItem)
    (photo : string) :
  uploadedImage s = Some photo → photo ≠ "" →
  find (λ it, String.eqb (character it) (character item)) (generationItems s)
    = Some item →
  status <$> generatedImages s !! character item ≠ Some Pending →
  handleRegenerateCharacter generatePrompt s (character item)
  = (setGeneratedImages (λ prev, <[character item := pendingImage]> prev) s,
     Some {| call_imageDataUrl := photo;
             call_prompt := generatePrompt item (detectedGender s) |}).
Proof.
  intros Hphoto Hne Hfind Hstatus. unfold handleRegenerateCharacter, callFor.
  rewrite Hphoto, Hfind. destruct photo; [done |]. simpl.
  by destruct (status <$> generatedImages s !! character item) as [[| |]|].
Qed.

End Regeneration.


End AppProps.
